(** * The endpoint-slice controller of the Kubernetes service registry

    A shallow embedding of
    [pilot/pkg/serviceregistry/kube/controller/endpointslice.go]:
    the per-service, per-slice endpoint cache ([endpointSliceCache]), the
    event handler that feeds it ([updateEDS]), the locality derivation of
    the endpoint builder and the two instance queries.

    Conventions of the embedding.
    - Go maps are finite maps ([gmap]); indexing an absent key reads the
      zero value, and ranging over a map visits every entry once, in an
      order the language leaves open (class [MapRange]).
    - Pointers to immutable records are the records themselves; a nil
      pointer is [None].
    - A nil slice and an empty slice are both the empty list.
    - The mutexes are not modelled: every operation below runs while it
      holds the lock, so the model is the sequential behaviour.
    - A Go panic is the [Panic] outcome. *)

From stdpp Require Import gmap strings list fin_maps.
From Stdlib Require Import ZArith.

Local Open Scope string_scope.
Local Open Scope list_scope.

(** ** Outcomes: a result, or a run-time panic *)

Inductive panic :=
  | index_out_of_range
  | assignment_to_entry_in_nil_map.

Inductive outcome (A : Type) : Type :=
  | Ret (a : A)
  | Panic (p : panic).
Arguments Ret {A} a.
Arguments Panic {A} p.

#[global] Instance outcome_ret : MRet outcome := λ A, Ret.
#[global] Instance outcome_bind : MBind outcome := λ A B k m,
  match m with
  | Ret a => k a
  | Panic p => Panic p
  end.

(** [for _, x := range xs { acc = body acc x }] where the body may panic. *)
Fixpoint range_list {A S} (body : S → A → outcome S) (acc : S) (xs : list A)
  : outcome S :=
  match xs with
  | [] => Ret acc
  | x :: xs' => acc' ← body acc x; range_list body acc' xs'
  end.

(** ** Data model *)

(** [model.IstioEndpoint], restricted to the fields the builder fills from
    its arguments and from the owning workload. *)
Record IstioEndpoint := {
  ep_Address : string;
  ep_EndpointPort : Z;
  ep_ServicePortName : string;
  ep_Locality : string;
  ep_Labels : gmap string string;
}.

(** [map[string][]*model.IstioEndpoint]: slice name to contribution. *)
Abbreviation slices := (gmap string (list IstioEndpoint)).

(** [endpointSliceCache.endpointsByServiceAndSlice]. *)
Abbreviation endpointSliceCache := (gmap string (gmap string (list IstioEndpoint))).

(** The order in which [range] visits the entries of a map.  Go fixes
    only that every entry is visited exactly once. *)
Class MapRange := {
  range_order : slices → list (string * list IstioEndpoint);
  range_order_perm : ∀ m, range_order m ≡ₚ map_to_list m;
}.

(** ** The slice cache *)

Definition newEndpointSliceCache : endpointSliceCache := ∅.

(** [Update]: the [delete] of the empty case is followed by the same
    two statements as the non-empty case; there is no return in between.
    [delete] on the nil inner map of an unknown hostname does nothing. *)
Definition Update (e : endpointSliceCache) (hostname slice : string)
    (endpoints : list IstioEndpoint) : endpointSliceCache :=
  let e1 :=
    if bool_decide (length endpoints = 0%nat) then
      match e !! hostname with
      | Some m => <[hostname := delete slice m]> e
      | None => e
      end
    else e in
  let e2 :=
    match e1 !! hostname with
    | Some _ => e1
    | None => <[hostname := ∅]> e1
    end in
  <[hostname := <[slice := endpoints]> (e2 !!! hostname)]> e2.

(** [Get]: append the contribution of every slice of the hostname, in
    the order the map is ranged over. *)
Definition Get `{MapRange} (e : endpointSliceCache) (hostname : string)
  : list IstioEndpoint :=
  foldl (λ endpoints kv, (endpoints ++ kv.2)) [] (range_order (e !!! hostname)).

(** The entry stored for [(hostname, slice)], if any. *)
Definition entry (e : endpointSliceCache) (hostname slice : string)
  : option (list IstioEndpoint) :=
  e !! hostname ≫= λ m, m !! slice.

(** A sequence of [Update] calls on a fresh cache. *)
Definition update_call : Type := string * string * list IstioEndpoint.

Definition apply_update (e : endpointSliceCache) (u : update_call)
  : endpointSliceCache :=
  Update e u.1.1 u.1.2 u.2.

Definition run_updates (us : list update_call) : endpointSliceCache :=
  foldl apply_update newEndpointSliceCache us.

(** The records of the last call for [(hostname, slice)] in [us]. *)
Fixpoint latest (us : list update_call) (hostname slice : string)
  : option (list IstioEndpoint) :=
  match us with
  | [] => None
  | u :: us' =>
    match latest us' hostname slice with
    | Some recs => Some recs
    | None =>
      if bool_decide (u.1.1 = hostname ∧ u.1.2 = slice) then Some u.2 else None
    end
  end.

(** A slice is live when its latest records are not empty. *)
Definition live (us : list update_call) (hostname slice : string) : Prop :=
  ∃ recs, latest us hostname slice = Some recs ∧ recs ≠ [].

Definition contribution (us : list update_call) (hostname slice : string)
  : list IstioEndpoint :=
  default [] (latest us hostname slice).

(** The slices of a hostname in the order of their first [Update]. *)
Fixpoint insertion_order (seen : list string) (us : list update_call)
    (hostname : string) : list string :=
  match us with
  | [] => []
  | u :: us' =>
    if bool_decide (u.1.1 = hostname ∧ u.1.2 ∉ seen)
    then u.1.2 :: insertion_order (u.1.2 :: seen) us' hostname
    else insertion_order seen us' hostname
  end.

(** The merged view the way P1 words it: latest records of every slice,
    concatenated in slice-insertion order. *)
Definition merged_in_insertion_order (us : list update_call) (hostname : string)
  : list IstioEndpoint :=
  flat_map (contribution us hostname) (insertion_order [] us hostname).

(** ** Kubernetes and registry objects *)

(** [v1.Pod]: the label map of a pod without labels is the nil map
    ([None]); reading it yields the zero value, writing to it panics. *)
Record Pod := {
  pod_Name : string;
  pod_Labels : option (gmap string string);
}.

Record ObjectReference := { ref_Kind : string }.

(** [discoveryv1alpha1.Endpoint]. *)
Record Endpoint := {
  Addresses : list string;
  Conditions_Ready : option bool;
  TargetRef : option ObjectReference;
  Topology : gmap string string;
}.

(** [discoveryv1alpha1.EndpointPort]. *)
Record EndpointPort := {
  port_Name : option string;
  port_Port : option Z;
}.

(** [discoveryv1alpha1.EndpointSlice]. *)
Record EndpointSlice := {
  slice_Name : string;
  slice_Namespace : string;
  slice_Labels : gmap string string;
  slice_Endpoints : list Endpoint;
  slice_Ports : list EndpointPort;
}.

(** [model.Port] and [model.Service]. *)
Record Port := {
  svcport_Name : string;
  svcport_Port : Z;
}.

Record Service := {
  svc_Hostname : string;
  svc_Ports : list Port;
  attr_Name : string;
  attr_Namespace : string;
}.

Record ServiceInstance := {
  si_Endpoint : IstioEndpoint;
  si_ServicePort : Port;
  si_Service : Service;
}.

Record Proxy := {
  proxy_ID : string;
  IPAddresses : list string;
  Metadata_Namespace : string;
}.

Inductive Event := EventAdd | EventUpdate | EventDelete.

#[global] Instance Event_eq_dec : EqDecision Event.
Proof. solve_decision. Defined.

(** What [c.metrics.AddMetric] receives. *)
Inductive MetricType := EndpointNoPod | ProxyStatusEndpointNotReady.

Record Metric := {
  metric_type : MetricType;
  metric_key : string;
  metric_msg : string;
}.

(** One call of [xdsUpdater.EDSUpdate]. *)
Record EDSUpdateCall := {
  eds_clusterID : string;
  eds_hostname : string;
  eds_namespace : string;
  eds_endpoints : list IstioEndpoint;
}.

(** The label selector handed to the endpoint-slice lister. *)
Inductive selector :=
  | Everything
  | LabelIs (key value : string).

(** Names that [endpointslice.go] uses and that are declared elsewhere:
    the label-name constants, [kube.ServiceHostname] and the two lookups
    of [model.PortList].  The development is parametric in them. *)
Class Externals := {
  NodeRegionLabelGA : string;
  NodeZoneLabelGA : string;
  IstioSubzoneLabel : string;
  LocalityLabel : string;
  LabelServiceName : string;
  ServiceHostname : string → string → string → string;
  PortList_Get : list Port → string → option Port;
  PortList_GetByPort : list Port → Z → option Port;
}.

(** The part of [Controller] and of the informer that the handler and
    the queries read.  [EndpointSlices ns sel] is the lister call
    [EndpointSlices(ns).List(sel)]; [None] is a listing error. *)
Record Controller := {
  domainSuffix : string;
  clusterID : string;
  servicesMap : gmap string Service;
  getPodByIP : string → option Pod;
  metrics_enabled : bool;
  EndpointSlices : string → selector → option (list EndpointSlice);
}.

(** What the handler writes: the slice cache, the metrics it reports and
    the pushes it sends downstream, oldest first. *)
Record State := {
  endpointCache : endpointSliceCache;
  metricsLog : list Metric;
  edsUpdates : list EDSUpdateCall;
}.

(** Indexing a [map[string]string]: the empty string for an absent key. *)
Definition index (m : gmap string string) (k : string) : string :=
  default "" (m !! k).

(** ** The endpoint builder *)

(** Modelled from the spec: the type [EndpointBuilder], its constructor
    [NewEndpointBuilder] and its method [buildIstioEndpoint] are declared
    outside the sources.  Following §4.1, the builder keeps what it reads
    from the workload (its labels and its explicit locality label, nothing
    when there is no workload) and a record is made of that context and of
    the address, port number and port name it is given. *)
Record EndpointBuilder := {
  b_locality : string;
  b_labels : gmap string string;
}.

Definition NewEndpointBuilder `{Externals} (pod : option Pod) : EndpointBuilder :=
  match pod with
  | Some p =>
    let podLabels := default ∅ (pod_Labels p) in
    {| b_locality := index podLabels LocalityLabel; b_labels := podLabels |}
  | None => {| b_locality := ""; b_labels := ∅ |}
  end.

Definition buildIstioEndpoint (b : EndpointBuilder) (endpointAddress : string)
    (endpointPort : Z) (svcPortName : string) : IstioEndpoint :=
  {| ep_Address := endpointAddress;
     ep_EndpointPort := endpointPort;
     ep_ServicePortName := svcPortName;
     ep_Locality := b_locality b;
     ep_Labels := b_labels b |}.

(** [getLocalityFromTopology]: the region value, then ["/" + zone] when
    the zone key is present, then ["/" + subzone] when the subzone key is
    present. *)
Definition getLocalityFromTopology `{Externals} (topology : gmap string string)
  : string :=
  let locality := index topology NodeRegionLabelGA in
  let locality :=
    if bool_decide (is_Some (topology !! NodeZoneLabelGA))
    then locality +:+ ("/" +:+ index topology NodeZoneLabelGA)
    else locality in
  let locality :=
    if bool_decide (is_Some (topology !! IstioSubzoneLabel))
    then locality +:+ ("/" +:+ index topology IstioSubzoneLabel)
    else locality in
  locality.

(** [newEndpointBuilder]: a pod whose locality label reads as empty is
    copied and the copy's label map is written to.  [DeepCopy] keeps a nil
    label map nil, so for a pod without labels the write panics. *)
Definition newEndpointBuilder `{Externals} (pod : option Pod) (endpoint : Endpoint)
  : outcome EndpointBuilder :=
  match pod with
  | Some p =>
    if bool_decide (index (default ∅ (pod_Labels p)) LocalityLabel = "") then
      match pod_Labels p with
      | Some labels =>
        let copy :=
          {| pod_Name := pod_Name p;
             pod_Labels :=
               Some (<[LocalityLabel := getLocalityFromTopology (Topology endpoint)]>
                       labels) |} in
        Ret (NewEndpointBuilder (Some copy))
      | None => Panic assignment_to_entry_in_nil_map
      end
    else Ret (NewEndpointBuilder (Some p))
  | None => Ret (NewEndpointBuilder None)
  end.

(** ** The endpoint update handler *)

(** [e.Conditions.Ready != nil && !*e.Conditions.Ready]. *)
Definition notReady (e : Endpoint) : bool :=
  match Conditions_Ready e with
  | Some ready => negb ready
  | None => false
  end.

(** [e.TargetRef != nil && e.TargetRef.Kind == "Pod"]. *)
Definition targetsPod (e : Endpoint) : bool :=
  match TargetRef e with
  | Some ref => bool_decide (ref_Kind ref = "Pod")
  | None => false
  end.

(** The innermost loop of [updateEDS]: one record per port of the slice. *)
Definition updateEDS_ports (builder : EndpointBuilder) (a : string)
    (ports : list EndpointPort) (endpoints : list IstioEndpoint)
  : list IstioEndpoint :=
  foldl (λ endpoints port,
           let portNum := default 0%Z (port_Port port) in
           let portName := default "" (port_Name port) in
           (endpoints ++ [buildIstioEndpoint builder a portNum portName]))
        endpoints ports.

(** The body of the loop over the addresses of one endpoint. *)
Definition updateEDS_address `{Externals} (c : Controller) (hostname : string)
    (slice : EndpointSlice) (e : Endpoint)
    (acc : list IstioEndpoint * list Metric) (a : string)
  : outcome (list IstioEndpoint * list Metric) :=
  let pod := getPodByIP c a in
  match pod with
  | None =>
    if targetsPod e then
      let reported :=
        if metrics_enabled c
        then (acc.2 ++ [{| metric_type := EndpointNoPod;
                           metric_key := hostname; metric_msg := a |}])
        else acc.2 in
      Ret (acc.1, reported)
    else
      builder ← newEndpointBuilder pod e;
      Ret (updateEDS_ports builder a (slice_Ports slice) acc.1, acc.2)
  | Some _ =>
    builder ← newEndpointBuilder pod e;
    Ret (updateEDS_ports builder a (slice_Ports slice) acc.1, acc.2)
  end.

(** The body of the loop over the endpoints of the slice. *)
Definition updateEDS_endpoint `{Externals} (c : Controller) (hostname : string)
    (slice : EndpointSlice) (acc : list IstioEndpoint * list Metric) (e : Endpoint)
  : outcome (list IstioEndpoint * list Metric) :=
  if notReady e then Ret acc
  else range_list (updateEDS_address c hostname slice e) acc (Addresses e).

Definition hostname_of `{Externals} (c : Controller) (slice : EndpointSlice) : string :=
  ServiceHostname (index (slice_Labels slice) LabelServiceName)
                  (slice_Namespace slice) (domainSuffix c).

(** [updateEDS], on an event whose payload is an endpoint slice.  The
    function has no result: it returns the state it leaves behind. *)
Definition updateEDS `{Externals} `{MapRange} (c : Controller) (st : State)
    (slice : EndpointSlice) (event : Event) : outcome State :=
  let hostname := hostname_of c slice in
  match servicesMap c !! hostname with
  | None => Ret st
  | Some svc =>
    built ←
      (if bool_decide (event ≠ EventDelete)
       then range_list (updateEDS_endpoint c hostname slice)
                       ([], metricsLog st) (slice_Endpoints slice)
       else Ret ([], metricsLog st));
    let cache := Update (endpointCache st) hostname (slice_Name slice) built.1 in
    Ret {| endpointCache := cache;
           metricsLog := built.2;
           edsUpdates :=
             (edsUpdates st ++
              [{| eds_clusterID := clusterID c;
                  eds_hostname := hostname;
                  eds_namespace := slice_Namespace slice;
                  eds_endpoints := Get cache hostname |}]) |}
  end.

(** ** The service instance queries *)

(** The innermost test of [proxyServiceInstances]: the address [a] of
    endpoint [e] against the proxy address [ip]. *)
Definition proxy_match (c : Controller) (proxy : Proxy) (svc : Service)
    (builder : EndpointBuilder) (portNum : Z) (svcPort : Port) (ip : string)
    (e : Endpoint) (acc : list ServiceInstance * list Metric) (a : string)
  : list ServiceInstance * list Metric :=
  if bool_decide (a = ip) then
    let istioEndpoint := buildIstioEndpoint builder ip portNum (svcport_Name svcPort) in
    ((acc.1 ++ [{| si_Endpoint := istioEndpoint;
                   si_ServicePort := svcPort;
                   si_Service := svc |}]),
     if notReady e && metrics_enabled c
     then (acc.2 ++ [{| metric_type := ProxyStatusEndpointNotReady;
                        metric_key := proxy_ID proxy; metric_msg := "" |}])
     else acc.2)
  else acc.

(** The body of the loop over the ports of the slice. *)
Definition proxy_port `{Externals} (c : Controller) (ep : EndpointSlice)
    (proxy : Proxy) (svc : Service) (builder : EndpointBuilder)
    (acc : list ServiceInstance * list Metric) (port : EndpointPort)
  : list ServiceInstance * list Metric :=
  match port_Name port, port_Port port with
  | Some name, Some portNum =>
    match PortList_Get (svc_Ports svc) name with
    | Some svcPort =>
      foldl (λ acc ip,
               foldl (λ acc e,
                        foldl (proxy_match c proxy svc builder portNum svcPort ip e)
                              acc (Addresses e))
                     acc (slice_Endpoints ep))
            acc (IPAddresses proxy)
    | None => acc
    end
  | _, _ => acc
  end.

(** [proxyServiceInstances]: the instances and the metrics it reports.
    [proxy.IPAddresses[0]] is read once the service is known, before any
    loop. *)
Definition proxyServiceInstances `{Externals} (c : Controller) (ep : EndpointSlice)
    (proxy : Proxy) : outcome (list ServiceInstance * list Metric) :=
  let hostname := hostname_of c ep in
  match servicesMap c !! hostname with
  | None => Ret ([], [])
  | Some svc =>
    match IPAddresses proxy with
    | [] => Panic index_out_of_range
    | podIP :: _ =>
      let pod := getPodByIP c podIP in
      let builder := NewEndpointBuilder pod in
      Ret (foldl (proxy_port c ep proxy svc builder) ([], []) (slice_Ports ep))
    end
  end.

(** [GetProxyServiceInstances]: a listing error yields nil. *)
Definition GetProxyServiceInstances `{Externals} (c : Controller) (proxy : Proxy)
  : outcome (list ServiceInstance * list Metric) :=
  match EndpointSlices c (Metadata_Namespace proxy) Everything with
  | None => Ret ([], [])
  | Some eps =>
    range_list (λ out ep,
                  instances ← proxyServiceInstances c ep proxy;
                  Ret ((out.1 ++ instances.1), (out.2 ++ instances.2)))
               ([], []) eps
  end.

(** Modelled from the spec: [labels.Collection] and its [HasSubsetOf] are
    declared outside the sources.  §4.4 has one requested label set, which
    must be contained in the labels of the workload. *)
Definition HasSubsetOf (labelsList that : gmap string string) : bool :=
  bool_decide (labelsList ⊆ that).

(** The labels [InstancesByPort] tests: those of the pod, none without a
    pod. *)
Definition podLabels_of (pod : option Pod) : gmap string string :=
  match pod with
  | Some p => default ∅ (pod_Labels p)
  | None => ∅
  end.

(** One instance per port of the slice that has no name or the name of
    the service port. *)
Definition byPort_ports (svc : Service) (svcPort : Port) (builder : EndpointBuilder)
    (a : string) (ports : list EndpointPort) (out : list ServiceInstance)
  : list ServiceInstance :=
  foldl (λ out port,
           let portNum := default 0%Z (port_Port port) in
           match port_Name port with
           | Some name =>
             if bool_decide (svcport_Name svcPort = name)
             then (out ++ [{| si_Endpoint :=
                                buildIstioEndpoint builder a portNum (svcport_Name svcPort);
                              si_ServicePort := svcPort;
                              si_Service := svc |}])
             else out
           | None =>
             (out ++ [{| si_Endpoint :=
                           buildIstioEndpoint builder a portNum (svcport_Name svcPort);
                         si_ServicePort := svcPort;
                         si_Service := svc |}])
           end)
        out ports.

(** The body of the loop over the addresses of one endpoint. *)
Definition byPort_address `{Externals} (c : Controller) (svc : Service)
    (svcPort : Port) (labelsList : gmap string string) (slice : EndpointSlice)
    (e : Endpoint) (out : list ServiceInstance) (a : string)
  : outcome (list ServiceInstance) :=
  let pod := getPodByIP c a in
  if negb (HasSubsetOf labelsList (podLabels_of pod)) then Ret out
  else
    builder ← newEndpointBuilder pod e;
    Ret (byPort_ports svc svcPort builder a (slice_Ports slice) out).

Definition byPort_slice `{Externals} (c : Controller) (svc : Service)
    (svcPort : Port) (labelsList : gmap string string)
    (out : list ServiceInstance) (slice : EndpointSlice)
  : outcome (list ServiceInstance) :=
  range_list (λ out e,
                range_list (byPort_address c svc svcPort labelsList slice e)
                           out (Addresses e))
             out (slice_Endpoints slice).

(** [InstancesByPort]: the instances and the error; the error is [None]
    for Go's nil. *)
Definition InstancesByPort `{Externals} (c : Controller) (svc : Service)
    (reqSvcPort : Z) (labelsList : gmap string string)
  : outcome (list ServiceInstance * option string) :=
  match EndpointSlices c (attr_Namespace svc)
                       (LabelIs LabelServiceName (attr_Name svc)) with
  | None => Ret ([], None)
  | Some slices =>
    if bool_decide (length slices = 0%nat) then Ret ([], None)
    else
      match PortList_GetByPort (svc_Ports svc) reqSvcPort with
      | None => Ret ([], None)
      | Some svcPort =>
        out ← range_list (byPort_slice c svc svcPort labelsList) [] slices;
        Ret (out, None)
      end
  end.

(** The locality the way §4.1 words it: the region, zone and subzone
    values that are present, in that order, joined by ["/"]. *)
Definition joined_locality `{Externals} (topology : gmap string string) : string :=
  String.concat "/"
    (omap (λ k, topology !! k) [NodeRegionLabelGA; NodeZoneLabelGA; IstioSubzoneLabel]).

(** The builder [newEndpointBuilder] returns, where it returns. *)
Definition builder_for `{Externals} (pod : option Pod) (endpoint : Endpoint)
  : EndpointBuilder :=
  match newEndpointBuilder pod endpoint with
  | Ret builder => builder
  | Panic _ => NewEndpointBuilder pod
  end.

(** The records [updateEDS] builds for one address: one per port of the
    slice. *)
Definition records_for (builder : EndpointBuilder) (a : string)
    (ports : list EndpointPort) : list IstioEndpoint :=
  map (λ port, buildIstioEndpoint builder a (default 0%Z (port_Port port))
                                  (default "" (port_Name port)))
      ports.

(** The instances [InstancesByPort] builds for one address: one per port
    of the slice without a name or with the name of the service port. *)
Definition port_selected (svcPort : Port) (port : EndpointPort) : bool :=
  match port_Name port with
  | Some name => bool_decide (svcport_Name svcPort = name)
  | None => true
  end.

Definition instances_for (svc : Service) (svcPort : Port) (builder : EndpointBuilder)
    (a : string) (ports : list EndpointPort) : list ServiceInstance :=
  map (λ port,
         {| si_Endpoint := buildIstioEndpoint builder a (default 0%Z (port_Port port))
                                              (svcport_Name svcPort);
            si_ServicePort := svcPort;
            si_Service := svc |})
      (List.filter (port_selected svcPort) ports).

(** Every pod the registry knows has a label map. *)
Definition pods_labelled (c : Controller) : Prop :=
  ∀ a pod, getPodByIP c a = Some pod → is_Some (pod_Labels pod).

(** The instances of [InstancesByPort] as a comprehension: every
    address whose workload's labels contain the requested ones, on every
    selected port of its slice. *)
Definition selected_instances `{Externals} (c : Controller) (svc : Service)
    (svcPort : Port) (labelsList : gmap string string) (slices : list EndpointSlice)
  : list ServiceInstance :=
  flat_map (λ slice,
    flat_map (λ e,
      flat_map (λ a,
        if bool_decide (labelsList ⊆ podLabels_of (getPodByIP c a))
        then instances_for svc svcPort (builder_for (getPodByIP c a) e) a
                           (slice_Ports slice)
        else [])
      (Addresses e))
    (slice_Endpoints slice))
  slices.

(** The contribution [updateEDS] computes for a slice, as a
    comprehension: for every endpoint that is not marked not-ready and
    every address of it, one record per port, except for an address
    without pod of an endpoint that targets a pod. *)
Definition address_records `{Externals} (c : Controller) (slice : EndpointSlice)
    (e : Endpoint) (a : string) : list IstioEndpoint :=
  match getPodByIP c a with
  | None =>
    if targetsPod e then []
    else records_for (builder_for None e) a (slice_Ports slice)
  | Some pod => records_for (builder_for (Some pod) e) a (slice_Ports slice)
  end.

Definition slice_records `{Externals} (c : Controller) (slice : EndpointSlice)
  : list IstioEndpoint :=
  flat_map (λ e, if notReady e then []
                 else flat_map (address_records c slice e) (Addresses e))
           (slice_Endpoints slice).

(** The metrics reported on the way: one per skipped address, when the
    controller has metrics. *)
Definition address_metrics (c : Controller) (hostname : string) (e : Endpoint)
    (a : string) : list Metric :=
  match getPodByIP c a with
  | None =>
    if targetsPod e && metrics_enabled c
    then [{| metric_type := EndpointNoPod;
             metric_key := hostname; metric_msg := a |}]
    else []
  | Some _ => []
  end.

Definition slice_metrics (c : Controller) (hostname : string) (slice : EndpointSlice)
  : list Metric :=
  flat_map (λ e, if notReady e then []
                 else flat_map (address_metrics c hostname e) (Addresses e))
           (slice_Endpoints slice).

(** The push [updateEDS] sends for a slice once the cache is [cache]. *)
Definition push_of `{Externals} `{MapRange} (c : Controller) (slice : EndpointSlice)
    (cache : endpointSliceCache) : EDSUpdateCall :=
  {| eds_clusterID := clusterID c;
     eds_hostname := hostname_of c slice;
     eds_namespace := slice_Namespace slice;
     eds_endpoints := Get cache (hostname_of c slice) |}.

(** An instance built for one of the addresses of the proxy. *)
Definition built_for_proxy (proxy : Proxy) (inst : ServiceInstance) : Prop :=
  ∃ builder ip portNum name,
    ip ∈ IPAddresses proxy
    ∧ si_Endpoint inst = buildIstioEndpoint builder ip portNum name.

(** ** Concrete inputs *)

(** Two legal iteration orders: the one [map_to_list] happens to give,
    and its reverse. *)
Lemma range_sorted_perm (m : slices) : map_to_list m ≡ₚ map_to_list m.
Proof. reflexivity. Qed.

Lemma range_reversed_perm (m : slices) : reverse (map_to_list m) ≡ₚ map_to_list m.
Proof. apply reverse_Permutation. Qed.

Definition range_sorted : MapRange :=
  {| range_order := map_to_list; range_order_perm := range_sorted_perm |}.

Definition range_reversed : MapRange :=
  {| range_order := λ m, reverse (map_to_list m);
     range_order_perm := range_reversed_perm |}.

(** One choice of the external names: the well-known label names, the
    cluster-local host name of a service, and port lookups that take the
    first port with the name or the number. *)
Definition sample_names : Externals :=
  {| NodeRegionLabelGA := "topology.kubernetes.io/region";
     NodeZoneLabelGA := "topology.kubernetes.io/zone";
     IstioSubzoneLabel := "topology.istio.io/subzone";
     LocalityLabel := "istio-locality";
     LabelServiceName := "kubernetes.io/service-name";
     ServiceHostname := λ name namespace domainSuffix,
       name +:+ "." +:+ namespace +:+ ".svc." +:+ domainSuffix;
     PortList_Get := λ ports name,
       List.find (λ port, bool_decide (svcport_Name port = name)) ports;
     PortList_GetByPort := λ ports num,
       List.find (λ port, bool_decide (svcport_Port port = num)) ports |}.

Definition sample_record (address : string) : IstioEndpoint :=
  {| ep_Address := address; ep_EndpointPort := 80; ep_ServicePortName := "http";
     ep_Locality := ""; ep_Labels := ∅ |}.

Definition two_slices : list update_call :=
  [("svc.ns", "a", [sample_record "10.0.0.1"]);
   ("svc.ns", "b", [sample_record "10.0.0.2"])].

(** A slice that gets one record and is then emptied, as by a delete
    event. *)
Definition insert_then_delete : list update_call :=
  [("svc.ns", "svc-ep-1", [sample_record "10.0.0.1"]);
   ("svc.ns", "svc-ep-1", [])].

Definition zone_only : gmap string string :=
  {[ "topology.kubernetes.io/zone" := "us-east-1a" ]}.

Definition region_and_zone : gmap string string :=
  {[ "topology.kubernetes.io/region" := "us-east-1";
     "topology.kubernetes.io/zone" := "us-east-1a" ]}.

Definition sample_host : string := "svc.ns.svc.cluster.local".

Definition sample_service : Service :=
  {| svc_Hostname := sample_host;
     svc_Ports := [{| svcport_Name := "http"; svcport_Port := 80 |}];
     attr_Name := "svc";
     attr_Namespace := "ns" |}.

Definition pod_foo : Pod :=
  {| pod_Name := "foo-1";
     pod_Labels := Some {[ "app" := "foo"; "version" := "v1" ]} |}.

Definition pod_bar : Pod :=
  {| pod_Name := "bar-1";
     pod_Labels := Some {[ "app" := "bar" ]} |}.

(** A pod without any label: its label map is nil. *)
Definition pod_unlabelled : Pod :=
  {| pod_Name := "bare-1"; pod_Labels := None |}.

(** The instance the by-port query builds for the pod of 10.0.0.1: its
    locality comes from the topology of the endpoint and is written into
    the labels of the copy. *)
Definition instance_foo : ServiceInstance :=
  {| si_Endpoint :=
       {| ep_Address := "10.0.0.1";
          ep_EndpointPort := 80;
          ep_ServicePortName := "http";
          ep_Locality := "us-east-1/us-east-1a";
          ep_Labels := {[ "app" := "foo"; "version" := "v1";
                          "istio-locality" := "us-east-1/us-east-1a" ]} |};
     si_ServicePort := {| svcport_Name := "http"; svcport_Port := 80 |};
     si_Service :=
       {| svc_Hostname := "svc.ns.svc.cluster.local";
          svc_Ports := [{| svcport_Name := "http"; svcport_Port := 80 |}];
          attr_Name := "svc";
          attr_Namespace := "ns" |} |}.

Definition endpoint_of (address : string) : Endpoint :=
  {| Addresses := [address];
     Conditions_Ready := Some true;
     TargetRef := Some {| ref_Kind := "Pod" |};
     Topology := region_and_zone |}.

Definition sample_slice (addresses : list string) : EndpointSlice :=
  {| slice_Name := "svc-ep-1";
     slice_Namespace := "ns";
     slice_Labels := {[ "kubernetes.io/service-name" := "svc" ]};
     slice_Endpoints := endpoint_of <$> addresses;
     slice_Ports := [{| port_Name := Some "http"; port_Port := Some 80%Z |}] |}.

(** A registry that knows the service, the pods of 10.0.0.1 and 10.0.0.2
    and one slice with the given addresses in namespace ns. *)
Definition sample_controller (addresses : list string) : Controller :=
  {| domainSuffix := "cluster.local";
     clusterID := "Kubernetes";
     servicesMap := {[ sample_host := sample_service ]};
     getPodByIP := λ ip,
       if bool_decide (ip = "10.0.0.1") then Some pod_foo
       else if bool_decide (ip = "10.0.0.2") then Some pod_bar
       else None;
     metrics_enabled := true;
     EndpointSlices := λ namespace _,
       if bool_decide (namespace = "ns") then Some [sample_slice addresses]
       else Some [] |}.

(** The same registry before the service is known. *)
Definition controller_without_service : Controller :=
  {| domainSuffix := "cluster.local";
     clusterID := "Kubernetes";
     servicesMap := ∅;
     getPodByIP := getPodByIP (sample_controller []);
     metrics_enabled := true;
     EndpointSlices := EndpointSlices (sample_controller []) |}.

(** A registry whose lister fails. *)
Definition controller_with_failing_lister : Controller :=
  {| domainSuffix := "cluster.local";
     clusterID := "Kubernetes";
     servicesMap := {[ sample_host := sample_service ]};
     getPodByIP := getPodByIP (sample_controller []);
     metrics_enabled := true;
     EndpointSlices := λ _ _, None |}.

Definition fresh_state : State :=
  {| endpointCache := newEndpointSliceCache; metricsLog := []; edsUpdates := [] |}.

Definition proxy_without_address : Proxy :=
  {| proxy_ID := "sidecar~~foo-1.ns~ns.svc.cluster.local";
     IPAddresses := [];
     Metadata_Namespace := "ns" |}.

(** A slice whose only endpoint is marked not-ready, and one whose only
    port has no name. *)
Definition unready_slice : EndpointSlice :=
  {| slice_Name := "svc-ep-2";
     slice_Namespace := "ns";
     slice_Labels := {[ "kubernetes.io/service-name" := "svc" ]};
     slice_Endpoints :=
       [{| Addresses := ["10.0.0.3"];
           Conditions_Ready := Some false;
           TargetRef := Some {| ref_Kind := "Pod" |};
           Topology := ∅ |}];
     slice_Ports := [{| port_Name := Some "http"; port_Port := Some 80%Z |}] |}.

Definition unnamed_port_slice : EndpointSlice :=
  {| slice_Name := "svc-ep-3";
     slice_Namespace := "ns";
     slice_Labels := {[ "kubernetes.io/service-name" := "svc" ]};
     slice_Endpoints := [endpoint_of "10.0.0.1"];
     slice_Ports := [{| port_Name := None; port_Port := Some 80%Z |}] |}.

(** The sample registry with a pod without labels at 10.0.0.3. *)
Definition controller_with_unlabelled_pod (addresses : list string) : Controller :=
  {| domainSuffix := "cluster.local";
     clusterID := "Kubernetes";
     servicesMap := {[ sample_host := sample_service ]};
     getPodByIP := λ ip,
       if bool_decide (ip = "10.0.0.3") then Some pod_unlabelled
       else getPodByIP (sample_controller []) ip;
     metrics_enabled := true;
     EndpointSlices := EndpointSlices (sample_controller addresses) |}.

(** The state after slice svc-ep-1 has contributed one record. *)
Definition state_after_add : State :=
  {| endpointCache :=
       Update newEndpointSliceCache sample_host "svc-ep-1" [sample_record "10.0.0.1"];
     metricsLog := [];
     edsUpdates := [] |}.

Definition sample_proxy : Proxy :=
  {| proxy_ID := "sidecar~10.0.0.1~foo-1.ns~ns.svc.cluster.local";
     IPAddresses := ["10.0.0.1"];
     Metadata_Namespace := "ns" |}.

(** ** Properties of the slice cache *)

Section cache.
Implicit Types (e : endpointSliceCache) (m : slices).
Implicit Types (h s hostname slice : string) (recs : list IstioEndpoint).

Lemma Update_insert e h s recs :
  Update e h s recs = <[h := <[s := recs]> (e !!! h)]> e.
Proof.
  unfold Update. rewrite !lookup_total_alt.
  case_bool_decide; destruct (e !! h) as [m|] eqn:Hh; simpl;
    repeat (rewrite ?Hh, ?lookup_insert_eq; simpl);
    by rewrite ?insert_insert_eq, ?insert_delete_eq.
Qed.

Lemma entry_Update e h s recs h' s' :
  entry (Update e h s recs) h' s' =
  if bool_decide (h = h' ∧ s = s') then Some recs else entry e h' s'.
Proof.
  rewrite Update_insert. unfold entry.
  case_bool_decide as Heq.
  - destruct Heq as [-> ->]. rewrite lookup_insert_eq. simpl.
    by rewrite lookup_insert_eq.
  - destruct (decide (h = h')) as [->|Hh].
    + rewrite lookup_insert_eq. simpl.
      rewrite lookup_insert_ne by naive_solver.
      rewrite lookup_total_alt. by destruct (e !! h').
    + by rewrite lookup_insert_ne.
Qed.

Lemma entry_run_updates_from e us h s :
  entry (foldl apply_update e us) h s =
  match latest us h s with Some recs => Some recs | None => entry e h s end.
Proof.
  revert e. induction us as [|[[h' s'] recs] us IH]; intros e; [done|].
  simpl. rewrite IH. destruct (latest us h s) as [r|]; [done|].
  unfold apply_update. simpl. rewrite entry_Update.
  by case_bool_decide.
Qed.

Lemma entry_run_updates us h s :
  entry (run_updates us) h s = latest us h s.
Proof.
  unfold run_updates. rewrite entry_run_updates_from.
  by destruct (latest us h s).
Qed.

Lemma lookup_total_entry e h s : (e !!! h) !! s = entry e h s.
Proof.
  unfold entry. rewrite lookup_total_alt. by destruct (e !! h).
Qed.

Lemma foldl_append_concat (l : list (string * list IstioEndpoint)) recs :
  foldl (λ endpoints kv, endpoints ++ kv.2) recs l = recs ++ concat l.*2.
Proof.
  revert recs. induction l as [|kv l IH]; intros recs; simpl.
  - by rewrite app_nil_r.
  - by rewrite IH, app_assoc.
Qed.

Lemma elem_of_concat {A} (ls : list (list A)) (x : A) :
  x ∈ concat ls ↔ ∃ l, l ∈ ls ∧ x ∈ l.
Proof.
  induction ls as [|l ls IH]; simpl.
  - rewrite elem_of_nil. split; [done|]. by intros (l & ?%elem_of_nil & _).
  - rewrite elem_of_app, IH. split.
    + intros [Hx|(l' & Hl' & Hx)]; [exists l|exists l']; split; try done.
      * by left.
      * by right.
    + intros (l' & [->|Hl']%elem_of_cons & Hx); [by left|right; by exists l'].
Qed.

Context `{MapRange}.

Lemma Get_concat e h : Get e h = concat (range_order (e !!! h)).*2.
Proof. unfold Get. by rewrite foldl_append_concat. Qed.

Lemma range_order_lookup m k v : (k, v) ∈ range_order m ↔ m !! k = Some v.
Proof. by rewrite range_order_perm, elem_of_map_to_list. Qed.

Lemma range_order_NoDup m : NoDup (range_order m).*1.
Proof. rewrite range_order_perm. apply NoDup_fst_map_to_list. Qed.

(** A record is in the merged view exactly when some slice of the
    hostname stores it. *)
Lemma elem_of_Get e h r :
  r ∈ Get e h ↔ ∃ s recs, entry e h s = Some recs ∧ r ∈ recs.
Proof.
  rewrite Get_concat, elem_of_concat. split.
  - intros (recs & Hin & Hr).
    apply list_elem_of_fmap in Hin as ([s recs'] & -> & Hin).
    apply range_order_lookup in Hin. rewrite lookup_total_entry in Hin.
    by exists s, recs'.
  - intros (s & recs & Hs & Hr). exists recs. split; [|done].
    apply list_elem_of_fmap. exists (s, recs). split; [done|].
    apply range_order_lookup. by rewrite lookup_total_entry.
Qed.

(** Concatenating the values of a duplicate-free list of entries of [m]
    is concatenating, over its keys with a non-empty value, what [m]
    stores. *)
Lemma concat_entries m (l : list (string * list IstioEndpoint)) :
  NoDup l.*1 →
  (∀ k v, (k, v) ∈ l → m !! k = Some v) →
  ∃ ss, NoDup ss
        ∧ (∀ s, s ∈ ss ↔ ∃ v, (s, v) ∈ l ∧ v ≠ [])
        ∧ concat l.*2 = flat_map (λ s, default [] (m !! s)) ss.
Proof.
  induction l as [|[k v] l IH]; intros Hnd Hm.
  - exists []. split; [constructor|]. split; [|done].
    intros s. split; [by intros ?%elem_of_nil|].
    by intros (v & ?%elem_of_nil & _).
  - simpl in Hnd. apply NoDup_cons in Hnd as [Hk Hnd].
    destruct IH as (ss & Hss & Hin & Hcat); [done| |].
    { intros k' v' Hin. apply Hm. by right. }
    destruct (decide (v = [])) as [->|Hv].
    + exists ss. split; [done|]. split; [|done].
      intros s. rewrite Hin. split.
      * intros (v' & Hv' & Hne). exists v'. split; [by right|done].
      * intros (v' & Hv' & Hne). exists v'. split; [|done].
        apply elem_of_cons in Hv' as [Heq|Hv']; [|done].
        by inversion Heq; subst.
    + exists (k :: ss). split; [|split].
      * apply NoDup_cons. split; [|done].
        intros (v' & Hv' & _)%Hin. apply Hk.
        apply list_elem_of_fmap. by exists (k, v').
      * intros s. rewrite elem_of_cons, Hin. split.
        -- intros [->|(v' & Hv' & Hne)].
           ++ exists v. split; [by left|done].
           ++ exists v'. split; [by right|done].
        -- intros (v' & Hv' & Hne).
           apply elem_of_cons in Hv' as [Heq|Hv'].
           ++ left. by inversion Heq.
           ++ right. by exists v'.
      * rewrite fmap_cons. cbn [concat flat_map snd]. rewrite Hcat.
        rewrite (Hm k v); [done|by left].
Qed.

(** The merged view of any cache: the stored contributions of the
    slices that store a non-empty list, each once, in some order. *)
Lemma Get_some_order e h :
  ∃ ss, NoDup ss
        ∧ (∀ s, s ∈ ss ↔ ∃ recs, entry e h s = Some recs ∧ recs ≠ [])
        ∧ Get e h = flat_map (λ s, default [] (entry e h s)) ss.
Proof.
  destruct (concat_entries (e !!! h) (range_order (e !!! h)))
    as (ss & Hnd & Hin & Hcat).
  - apply range_order_NoDup.
  - intros k v. apply range_order_lookup.
  - exists ss. split; [done|]. split.
    + intros s. rewrite Hin. apply exist_proper. intros v.
      by rewrite range_order_lookup, lookup_total_entry.
    + rewrite Get_concat, Hcat. apply flat_map_ext. intros s.
      by rewrite lookup_total_entry.
Qed.

(** What [Update] with no records does achieve: afterwards the
    merged view holds only records stored by other slices. *)
Lemma Get_Update_empty_excludes e h s r :
  r ∈ Get (Update e h s []) h →
  ∃ s' recs, s' ≠ s ∧ entry e h s' = Some recs ∧ r ∈ recs.
Proof.
  intros (s' & recs & Hs' & Hr)%elem_of_Get.
  rewrite entry_Update in Hs'. case_bool_decide as Heq.
  - inversion Hs'; subst. by apply elem_of_nil in Hr.
  - exists s', recs. split; [|done]. naive_solver.
Qed.

(** C1: [Update] with an empty record list leaves an entry for the
    slice in the cache: the key stays reachable and maps to the empty
    list, where §4.2 and P2 have the entry deleted. *)
Theorem Update_empty_leaves_entry e h s :
  entry (Update e h s []) h s = Some []
  ∧ s ∈ dom (Update e h s [] !!! h).
Proof.
  assert (entry (Update e h s []) h s = Some []) as Hentry.
  { rewrite entry_Update. by rewrite bool_decide_eq_true_2. }
  split; [done|].
  apply elem_of_dom. rewrite lookup_total_entry, Hentry. by eexists.
Qed.

(** C2 (amended): after any sequence of [Update] calls, [Get] is the
    concatenation of the latest records of the live slices of the
    hostname, each slice once, in some order of the slices; with no live
    slice it is empty.  [Get] has no error result. *)
Theorem Get_merges_latest us h :
  (∃ ss, NoDup ss
         ∧ (∀ s, s ∈ ss ↔ live us h s)
         ∧ Get (run_updates us) h = flat_map (contribution us h) ss)
  ∧ ((∀ s, ¬ live us h s) → Get (run_updates us) h = []).
Proof.
  destruct (Get_some_order (run_updates us) h) as (ss & Hnd & Hin & Hget).
  assert (∀ s, s ∈ ss ↔ live us h s) as Hlive.
  { intros s. rewrite Hin. unfold live. apply exist_proper. intros recs.
    by rewrite entry_run_updates. }
  assert (Get (run_updates us) h = flat_map (contribution us h) ss) as Heq.
  { rewrite Hget. apply flat_map_ext. intros s. unfold contribution.
    by rewrite entry_run_updates. }
  split; [by exists ss|].
  intros Hnone. rewrite Heq. destruct ss as [|s ss]; [done|].
  exfalso. apply (Hnone s), Hlive. by left.
Qed.


(** C4: an [Update] of slice [s1] leaves the entry stored for any other
    slice [s2] of the same hostname as it was. *)
Theorem Update_isolation e h s1 s2 recs :
  s1 ≠ s2 →
  entry (Update e h s1 recs) h s2 = entry e h s2.
Proof.
  intros Hne. rewrite entry_Update.
  case_bool_decide as Heq; [by destruct Heq|done].
Qed.

(** With no records under any other slice of the hostname, the merged
    view is what the one slice stores. *)
Lemma Get_only_slice e h s :
  (∀ s', s' ≠ s → default [] (entry e h s') = []) →
  Get e h = default [] (entry e h s).
Proof.
  intros Hothers.
  destruct (Get_some_order e h) as (ss & Hnd & Hin & ->).
  assert (∀ s', s' ∈ ss → s' = s) as Hs.
  { intros s' (recs & Hrecs & Hne)%Hin.
    destruct (decide (s' = s)) as [|Hneq]; [done|].
    specialize (Hothers s' Hneq). rewrite Hrecs in Hothers. done. }
  destruct ss as [|s1 [|s2 ss]].
  - simpl. destruct (entry e h s) as [[|r recs]|] eqn:Hentry; [done| |done].
    assert (s ∈ []) as []%elem_of_nil. apply Hin. by eexists.
  - rewrite (Hs s1) by by left. simpl. by rewrite app_nil_r.
  - exfalso. apply NoDup_cons in Hnd as [Hnotin _]. apply Hnotin.
    rewrite (Hs s1), <-(Hs s2); [by left|by right; left|by left].
Qed.

End cache.

(** ** Properties of the endpoint builder *)

Section builder.
Context `{Externals}.
Implicit Types (topology : gmap string string).

Lemma string_app_assoc (s1 s2 s3 : string) :
  (s1 +:+ s2) +:+ s3 = s1 +:+ (s2 +:+ s3).
Proof.
  induction s1 as [|a s1 IH]; [done|].
  change (String a ((s1 +:+ s2) +:+ s3) = String a (s1 +:+ (s2 +:+ s3))).
  by rewrite IH.
Qed.

(** What the code computes on every topology map: the region component
    is always there, blank when the region label is absent. *)
Lemma getLocalityFromTopology_join topology :
  getLocalityFromTopology topology =
  String.concat "/"
    (index topology NodeRegionLabelGA
       :: omap (λ k, topology !! k) [NodeZoneLabelGA; IstioSubzoneLabel]).
Proof.
  unfold getLocalityFromTopology, index.
  destruct (topology !! NodeZoneLabelGA) as [z|] eqn:Hz;
    destruct (topology !! IstioSubzoneLabel) as [sz|] eqn:Hsz;
    cbn [omap list_omap String.concat];
    rewrite ?Hz, ?Hsz; cbn [String.concat default];
    repeat (rewrite bool_decide_eq_true_2 by by eexists);
    repeat (rewrite bool_decide_eq_false_2 by by intros [? ?]);
    by rewrite ?string_app_assoc.
Qed.

(** C5 (amended): on a topology map that has the region label the
    locality is the present region, zone and subzone values, in that
    order, joined by ["/"]; an absent zone or subzone adds neither a
    component nor a separator. *)
Theorem getLocalityFromTopology_with_region topology :
  is_Some (topology !! NodeRegionLabelGA) →
  getLocalityFromTopology topology = joined_locality topology.
Proof.
  intros [r Hr]. rewrite getLocalityFromTopology_join. unfold joined_locality, index.
  cbn [omap list_omap]. by rewrite Hr.
Qed.

(** Region only: the region value, with no separator after it. *)
Lemma getLocalityFromTopology_region_only topology :
  topology !! NodeZoneLabelGA = None →
  topology !! IstioSubzoneLabel = None →
  getLocalityFromTopology topology = index topology NodeRegionLabelGA.
Proof.
  intros Hz Hsz. rewrite getLocalityFromTopology_join.
  cbn [omap list_omap]. by rewrite Hz, Hsz.
Qed.

Lemma newEndpointBuilder_labelled pod endpoint :
  is_Some (pod_Labels pod) →
  newEndpointBuilder (Some pod) endpoint = Ret (builder_for (Some pod) endpoint).
Proof.
  intros [labels Hl]. unfold builder_for, newEndpointBuilder.
  rewrite Hl. by case_bool_decide.
Qed.

Lemma newEndpointBuilder_no_pod endpoint :
  newEndpointBuilder None endpoint = Ret (builder_for None endpoint).
Proof. done. Qed.

Lemma newEndpointBuilder_pods_labelled c a endpoint :
  pods_labelled c →
  newEndpointBuilder (getPodByIP c a) endpoint
  = Ret (builder_for (getPodByIP c a) endpoint).
Proof.
  intros Hc. destruct (getPodByIP c a) as [pod|] eqn:Hpod; [|done].
  apply newEndpointBuilder_labelled. by apply (Hc a).
Qed.

End builder.

(** ** Properties of the endpoint update handler *)

Section handler.
Context `{Externals} `{MapRange}.
Implicit Types (c : Controller) (st : State) (slice : EndpointSlice).

Lemma updateEDS_ports_app builder a ports endpoints :
  updateEDS_ports builder a ports endpoints
  = endpoints ++ records_for builder a ports.
Proof.
  unfold updateEDS_ports, records_for. revert endpoints.
  induction ports as [|port ports IH]; intros endpoints; simpl.
  - by rewrite app_nil_r.
  - by rewrite IH, <-app_assoc.
Qed.

Lemma records_for_address builder a ports :
  Forall (λ r, ep_Address r = a) (records_for builder a ports).
Proof. unfold records_for. apply Forall_map, Forall_true. done. Qed.



End handler.

(** ** Properties of the service instance queries *)

Section queries.
Context `{Externals}.
Implicit Types (c : Controller) (svc : Service) (proxy : Proxy).

Lemma proxyServiceInstances_no_address c ep proxy :
  IPAddresses proxy = [] →
  proxyServiceInstances c ep proxy =
  match servicesMap c !! hostname_of c ep with
  | Some _ => Panic index_out_of_range
  | None => Ret ([], [])
  end.
Proof.
  intros Hip. unfold proxyServiceInstances. rewrite Hip.
  by destruct (servicesMap c !! hostname_of c ep).
Qed.

(** C9: for a proxy without addresses, as soon as one endpoint slice
    of its namespace belongs to a known service,
    [GetProxyServiceInstances] panics on [proxy.IPAddresses[0]] and
    returns nothing. *)
Theorem GetProxyServiceInstances_no_address c proxy eps ep svc :
  IPAddresses proxy = [] →
  EndpointSlices c (Metadata_Namespace proxy) Everything = Some eps →
  ep ∈ eps →
  servicesMap c !! hostname_of c ep = Some svc →
  GetProxyServiceInstances c proxy = Panic index_out_of_range.
Proof.
  intros Hip Hlist Hin Hsvc. unfold GetProxyServiceInstances. rewrite Hlist.
  clear Hlist. generalize (@nil ServiceInstance, @nil Metric).
  induction eps as [|ep' eps IH]; intros out; [by apply elem_of_nil in Hin|].
  simpl. rewrite (proxyServiceInstances_no_address _ _ _ Hip).
  destruct (servicesMap c !! hostname_of c ep') as [svc'|] eqn:Hsvc'; [done|].
  simpl. apply IH.
  apply elem_of_cons in Hin as [->|Hin]; [congruence|done].
Qed.

Lemma range_list_app {A B} (body : list B → A → outcome (list B))
    (f : A → list B) (xs : list A) (out : list B) :
  (∀ out x, x ∈ xs → body out x = Ret (out ++ f x)) →
  range_list body out xs = Ret (out ++ flat_map f xs).
Proof.
  revert out. induction xs as [|x xs IH]; intros out Hbody; simpl.
  - by rewrite app_nil_r.
  - rewrite Hbody by by left. simpl. rewrite IH.
    + by rewrite app_assoc.
    + intros out' x' Hx'. apply Hbody. by right.
Qed.

Lemma byPort_ports_app svc svcPort builder a ports out :
  byPort_ports svc svcPort builder a ports out
  = out ++ instances_for svc svcPort builder a ports.
Proof.
  unfold byPort_ports, instances_for, port_selected. revert out.
  induction ports as [|port ports IH]; intros out; simpl.
  - by rewrite app_nil_r.
  - rewrite IH. destruct (port_Name port) as [name|]; [case_bool_decide|];
      simpl; by rewrite <-?app_assoc.
Qed.

(** The label test of [InstancesByPort] lets a pod through only when
    every requested label is among its labels; a pod without a label
    map gets through only when nothing is requested. *)
Lemma byPort_address_select c svc svcPort labelsList slice e out a :
  labelsList ≠ ∅ ∨ pods_labelled c →
  byPort_address c svc svcPort labelsList slice e out a =
  Ret (out ++
       if bool_decide (labelsList ⊆ podLabels_of (getPodByIP c a))
       then instances_for svc svcPort (builder_for (getPodByIP c a) e) a
                          (slice_Ports slice)
       else []).
Proof.
  intros Hok. unfold byPort_address, HasSubsetOf.
  case_bool_decide as Hsub; simpl; [|by rewrite app_nil_r].
  assert (newEndpointBuilder (getPodByIP c a) e
          = Ret (builder_for (getPodByIP c a) e)) as ->.
  { destruct (getPodByIP c a) as [pod|] eqn:Hpod; [|done].
    apply newEndpointBuilder_labelled.
    destruct Hok as [Hne|Hc]; [|by apply (Hc a)].
    destruct (pod_Labels pod) as [labels|] eqn:Hl; [by eexists|].
    exfalso. apply Hne. simpl in Hsub. rewrite Hl in Hsub. simpl in Hsub.
    apply (anti_symm (⊆)); [done|]. apply map_empty_subseteq. }
  simpl. by rewrite byPort_ports_app.
Qed.

Lemma byPort_slice_select c svc svcPort labelsList out slice :
  labelsList ≠ ∅ ∨ pods_labelled c →
  byPort_slice c svc svcPort labelsList out slice =
  Ret (out ++ selected_instances c svc svcPort labelsList [slice]).
Proof.
  intros Hok. unfold byPort_slice, selected_instances. simpl.
  rewrite app_nil_r. apply range_list_app. intros out' e _.
  apply range_list_app. intros out'' a _.
  by apply byPort_address_select.
Qed.

Lemma selected_instances_cons c svc svcPort labelsList slice slices :
  selected_instances c svc svcPort labelsList (slice :: slices) =
  selected_instances c svc svcPort labelsList [slice]
  ++ selected_instances c svc svcPort labelsList slices.
Proof. unfold selected_instances. simpl. by rewrite app_nil_r. Qed.

(** Membership in the comprehension, spelled out. *)
Lemma elem_of_selected_instances c svc svcPort labelsList slices inst :
  inst ∈ selected_instances c svc svcPort labelsList slices ↔
  ∃ slice e a port,
    slice ∈ slices ∧ e ∈ slice_Endpoints slice ∧ a ∈ Addresses e
    ∧ port ∈ slice_Ports slice
    ∧ labelsList ⊆ podLabels_of (getPodByIP c a)
    ∧ port_selected svcPort port = true
    ∧ inst = {| si_Endpoint :=
                  buildIstioEndpoint (builder_for (getPodByIP c a) e) a
                    (default 0%Z (port_Port port)) (svcport_Name svcPort);
                si_ServicePort := svcPort;
                si_Service := svc |}.
Proof.
  unfold selected_instances, instances_for.
  rewrite list_elem_of_In, in_flat_map. split.
  - intros (slice & Hslice & Hin).
    apply in_flat_map in Hin as (e & He & Hin).
    apply in_flat_map in Hin as (a & Ha & Hin).
    case_bool_decide as Hsub; [|by destruct Hin].
    apply in_map_iff in Hin as (port & <- & Hport).
    apply filter_In in Hport as [Hport Hsel].
    exists slice, e, a, port. by rewrite !list_elem_of_In.
  - intros (slice & e & a & port & Hslice & He & Ha & Hport & Hsub & Hsel & ->).
    apply list_elem_of_In in Hslice, He, Ha, Hport.
    exists slice. split; [done|].
    apply in_flat_map. exists e. split; [done|].
    apply in_flat_map. exists a. split; [done|].
    rewrite bool_decide_eq_true_2 by done.
    apply in_map_iff. exists port. split; [done|].
    by apply filter_In.
Qed.


(** C10: whenever [InstancesByPort] returns, its error is nil; a
    listing error, an empty listing and an unresolvable port number all
    return the same empty result with a nil error. *)
Theorem InstancesByPort_error_always_nil c svc reqSvcPort labelsList :
  (∀ out err,
     InstancesByPort c svc reqSvcPort labelsList = Ret (out, err) → err = None)
  ∧ (EndpointSlices c (attr_Namespace svc)
                    (LabelIs LabelServiceName (attr_Name svc)) = None →
     InstancesByPort c svc reqSvcPort labelsList = Ret ([], None))
  ∧ (EndpointSlices c (attr_Namespace svc)
                    (LabelIs LabelServiceName (attr_Name svc)) = Some [] →
     InstancesByPort c svc reqSvcPort labelsList = Ret ([], None))
  ∧ (PortList_GetByPort (svc_Ports svc) reqSvcPort = None →
     InstancesByPort c svc reqSvcPort labelsList = Ret ([], None)).
Proof.
  unfold InstancesByPort. repeat split.
  - intros out err.
    destruct (EndpointSlices c _ _) as [slices|]; [|congruence].
    case_bool_decide; [congruence|].
    destruct (PortList_GetByPort _ _) as [svcPort|]; [|congruence].
    destruct (range_list _ _ _); simpl; congruence.
  - by intros ->.
  - by intros ->.
  - intros ->. destruct (EndpointSlices c _ _) as [slices|]; [|done].
    by case_bool_decide.
Qed.

End queries.

(** ** The model on the concrete inputs *)

Section samples.
#[local] Existing Instance sample_names.

(** Slice cache scenarios of §8, ranged over in either order. *)
Example Get_two_addresses_then_delete :
  let recs := [sample_record "10.0.0.1"; sample_record "10.0.0.2"] in
  let e := Update newEndpointSliceCache "svc.ns" "svc-ep-1" recs in
  @Get range_sorted e "svc.ns" = recs
  ∧ @Get range_reversed e "svc.ns" = recs
  ∧ @Get range_sorted (Update e "svc.ns" "svc-ep-1" []) "svc.ns" = []
  ∧ entry (Update e "svc.ns" "svc-ep-1" []) "svc.ns" "svc-ep-1" = Some [].
Proof. vm_compute. done. Qed.

Example Get_two_slices_either_order :
  ep_Address <$> @Get range_sorted (run_updates two_slices) "svc.ns"
    = ["10.0.0.1"; "10.0.0.2"]
  ∧ ep_Address <$> @Get range_reversed (run_updates two_slices) "svc.ns"
    = ["10.0.0.2"; "10.0.0.1"].
Proof. vm_compute. done. Qed.

(** Counterexample for C2: with the slices ranged over in reverse, [Get] does
    not return the insertion order. *)
Lemma Get_not_in_insertion_order :
  @Get range_reversed (run_updates two_slices) "svc.ns"
  ≠ merged_in_insertion_order two_slices "svc.ns".
Proof. vm_compute. intros [=]. Qed.

Lemma Get_merges_latest_witness :
  @Get range_sorted (run_updates insert_then_delete) "svc.ns" = [].
Proof.
  apply (proj2 (@Get_merges_latest range_sorted insert_then_delete "svc.ns")).
  intros s (recs & Hlatest & Hne). simpl in Hlatest.
  repeat case_bool_decide; simplify_eq.
Defined.


Lemma Update_isolation_witness :
  entry (Update (run_updates two_slices) "svc.ns" "a" []) "svc.ns" "b"
  = entry (run_updates two_slices) "svc.ns" "b".
Proof. apply Update_isolation. intros [=]. Defined.

(** Counterexample for C5: with the zone label alone the locality starts with
    a separator; it is not the join of the values that are present. *)
Lemma zone_only_locality_leads_with_separator :
  getLocalityFromTopology zone_only = "/us-east-1a"
  ∧ getLocalityFromTopology zone_only ≠ joined_locality zone_only.
Proof. split; [reflexivity|]. vm_compute. intros [=]. Qed.

Lemma getLocalityFromTopology_with_region_witness :
  getLocalityFromTopology region_and_zone = joined_locality region_and_zone.
Proof.
  apply getLocalityFromTopology_with_region.
  exists "us-east-1". reflexivity.
Defined.

Example getLocalityFromTopology_samples :
  getLocalityFromTopology region_and_zone = "us-east-1/us-east-1a"
  ∧ getLocalityFromTopology {[ "topology.kubernetes.io/region" := "us-east-1" ]}
    = "us-east-1"
  ∧ getLocalityFromTopology ∅ = "".
Proof. vm_compute. done. Qed.

(** A pod without labels makes [newEndpointBuilder] panic. *)
Example newEndpointBuilder_unlabelled_pod :
  newEndpointBuilder (Some pod_unlabelled) (endpoint_of "10.0.0.3")
  = Panic assignment_to_entry_in_nil_map.
Proof. reflexivity. Qed.



(** The by-port scenario of §8, on the code itself. *)
Example InstancesByPort_scenario :
  InstancesByPort (sample_controller ["10.0.0.1"]) sample_service 80
                  {[ "app" := "foo" ]}
    = Ret ([instance_foo], None)
  ∧ InstancesByPort (sample_controller ["10.0.0.2"]) sample_service 80
                    {[ "app" := "foo" ]}
    = Ret ([], None)
  ∧ InstancesByPort (sample_controller ["10.0.0.1"]) sample_service 8080
                    {[ "app" := "foo" ]}
    = Ret ([], None).
Proof. vm_compute. done. Qed.


Lemma GetProxyServiceInstances_no_address_witness :
  GetProxyServiceInstances (sample_controller ["10.0.0.1"]) proxy_without_address
  = Panic index_out_of_range.
Proof.
  apply (GetProxyServiceInstances_no_address
           (sample_controller ["10.0.0.1"]) proxy_without_address
           [sample_slice ["10.0.0.1"]] (sample_slice ["10.0.0.1"])
           sample_service);
    [reflexivity | reflexivity | by left | reflexivity].
Defined.

Lemma InstancesByPort_error_always_nil_witness :
  InstancesByPort controller_with_failing_lister sample_service 80 ∅
  = Ret ([], None).
Proof.
  apply (proj1 (proj2 (InstancesByPort_error_always_nil
                         controller_with_failing_lister sample_service 80 ∅))).
  reflexivity.
Defined.

End samples.

(** ** Further properties of the slice cache *)

Section cache_laws.
Implicit Types (e : endpointSliceCache) (m : slices).
Implicit Types (h s : string) (recs : list IstioEndpoint).

Lemma concat_values_Permutation (l1 l2 : list (string * list IstioEndpoint)) :
  l1 ≡ₚ l2 → concat l1.*2 ≡ₚ concat l2.*2.
Proof.
  induction 1 as [|kv l1 l2 _ IH|kv1 kv2 l|l1 l2 l3 _ IH1 _ IH2]; simpl.
  - done.
  - by rewrite IH.
  - rewrite !app_assoc. f_equiv. apply Permutation_app_comm.
  - by rewrite IH1.
Qed.

(** X3: [Update] writes one key of the outer map and one key of the inner
    map: a later [Update] of the same slice overrides an earlier one. *)
Theorem Update_last_write_wins e h s recs1 recs2 :
  Update (Update e h s recs1) h s recs2 = Update e h s recs2.
Proof.
  rewrite !Update_insert, lookup_total_insert_eq.
  by rewrite !insert_insert_eq.
Qed.

(** X4: [Update] calls for different slices, or for different hostnames,
    can be swapped. *)
Theorem Update_commute e h1 s1 recs1 h2 s2 recs2 :
  h1 ≠ h2 ∨ s1 ≠ s2 →
  Update (Update e h1 s1 recs1) h2 s2 recs2
  = Update (Update e h2 s2 recs2) h1 s1 recs1.
Proof.
  intros Hne. rewrite !Update_insert.
  destruct (decide (h1 = h2)) as [<-|Hh].
  - destruct Hne as [|Hs]; [done|].
    rewrite !lookup_total_insert_eq, !insert_insert_eq.
    by rewrite insert_insert_ne.
  - rewrite !lookup_total_insert_ne by done.
    by rewrite insert_insert_ne.
Qed.

(** X5: No [Update] ever removes a key: an entry that exists, exists after
    any further sequence of calls, those with no records included. *)
Theorem Update_never_removes_keys e us h s :
  is_Some (entry e h s) →
  is_Some (entry (foldl apply_update e us) h s).
Proof.
  intros Hsome. rewrite entry_run_updates_from.
  by destruct (latest us h s).
Qed.

Context `{MapRange}.

(** X1: Round trip: what [Update] stores is what the entry holds, and each
    of the records is in the merged view of the hostname. *)
Theorem Update_then_Get e h s recs :
  entry (Update e h s recs) h s = Some recs
  ∧ ∀ r, r ∈ recs → r ∈ Get (Update e h s recs) h.
Proof.
  assert (entry (Update e h s recs) h s = Some recs) as Hentry.
  { rewrite entry_Update. by rewrite bool_decide_eq_true_2. }
  split; [done|]. intros r Hr. apply elem_of_Get. by exists s, recs.
Qed.


(** X6: [Update] replaces the contribution of the slice: up to the order of
    the slices, the merged view is the new records followed by the
    records of all other slices of the hostname. *)
Theorem Get_Update_replaces e h s recs :
  Get (Update e h s recs) h
  ≡ₚ recs ++ Get (<[h := delete s (e !!! h)]> e) h.
Proof.
  rewrite !Get_concat, Update_insert, !lookup_total_insert_eq.
  rewrite (concat_values_Permutation _ _ (range_order_perm _)).
  rewrite (concat_values_Permutation _ _
             (range_order_perm (delete s (e !!! h)))).
  rewrite <-insert_delete_eq.
  rewrite (concat_values_Permutation _ _
             (map_to_list_insert _ s recs (lookup_delete_eq _ _))).
  done.
Qed.

(** X7: Adding a slice and then emptying it, as an add event followed by a
    delete event does, leaves a merged view without any record of the
    slice: it is that of the cache with the slice removed. *)
Theorem Get_add_then_delete e h s recs :
  Get (Update (Update e h s recs) h s []) h
  ≡ₚ Get (<[h := delete s (e !!! h)]> e) h.
Proof.
  rewrite !Get_concat, !Update_insert, !lookup_total_insert_eq.
  rewrite !insert_insert_eq.
  rewrite (concat_values_Permutation _ _ (range_order_perm _)).
  rewrite (concat_values_Permutation _ _
             (range_order_perm (delete s (e !!! h)))).
  rewrite <-insert_delete_eq.
  rewrite (concat_values_Permutation _ _
             (map_to_list_insert _ s [] (lookup_delete_eq _ _))).
  done.
Qed.

End cache_laws.

(** X8: Whatever the order in which the slices are ranged over, the merged
    view holds the same records, each as often. *)
Theorem Get_order_irrelevant (R1 R2 : MapRange) (e : endpointSliceCache)
    (h : string) :
  @Get R1 e h ≡ₚ @Get R2 e h.
Proof.
  rewrite !Get_concat.
  rewrite (concat_values_Permutation _ _ (@range_order_perm R1 _)).
  by rewrite (concat_values_Permutation _ _ (@range_order_perm R2 _)).
Qed.

(** ** Further properties of the endpoint builder *)

Section builder_laws.
Context `{Externals}.

(** X9: [newEndpointBuilder] leaves the labels of a pod as they are, except
    the locality label: a pod that has one keeps it, a pod that has none
    (or an empty one) gets the locality derived from the topology of the
    endpoint. *)
Theorem newEndpointBuilder_locality_label pod labels endpoint :
  pod_Labels pod = Some labels →
  ∃ labels',
    newEndpointBuilder (Some pod) endpoint
    = Ret (NewEndpointBuilder
             (Some {| pod_Name := pod_Name pod; pod_Labels := Some labels' |}))
    ∧ (∀ k, k ≠ LocalityLabel → labels' !! k = labels !! k)
    ∧ index labels' LocalityLabel =
        if bool_decide (index labels LocalityLabel = "")
        then getLocalityFromTopology (Topology endpoint)
        else index labels LocalityLabel.
Proof.
  intros Hl. unfold newEndpointBuilder. rewrite Hl. simpl.
  case_bool_decide as Hempty.
  - eexists. split; [reflexivity|]. split.
    + intros k Hk. by rewrite lookup_insert_ne.
    + unfold index. by rewrite lookup_insert_eq.
  - exists labels. split; [|done]. destruct pod. simpl in *. by subst.
Qed.

Lemma newEndpointBuilder_Panic pod endpoint p :
  newEndpointBuilder pod endpoint = Panic p
  ↔ p = assignment_to_entry_in_nil_map
    ∧ ∃ pod0, pod = Some pod0 ∧ pod_Labels pod0 = None.
Proof.
  unfold newEndpointBuilder. split.
  - destruct pod as [pod0|]; [|done].
    destruct (pod_Labels pod0) as [labels|] eqn:Hl; simpl.
    + by case_bool_decide.
    + rewrite bool_decide_eq_true_2 by done. intros [= <-]. eauto.
  - intros (-> & pod0 & -> & Hl). rewrite Hl. simpl.
    by rewrite bool_decide_eq_true_2.
Qed.

(** X10: [newEndpointBuilder] panics exactly on a pod whose label map is nil,
    with the nil-map assignment panic. *)
Theorem newEndpointBuilder_panics_iff pod endpoint p :
  newEndpointBuilder pod endpoint = Panic p
  ↔ p = assignment_to_entry_in_nil_map
    ∧ ∃ pod0, pod = Some pod0 ∧ pod_Labels pod0 = None.
Proof. apply newEndpointBuilder_Panic. Qed.

End builder_laws.

(** ** Further properties of the endpoint update handler *)

Section handler_laws.
Context `{Externals} `{MapRange}.
Implicit Types (c : Controller) (st : State) (slice : EndpointSlice).

Lemma range_list_app2 {A B C} (body : list B * list C → A → outcome (list B * list C))
    (f : A → list B) (g : A → list C) (xs : list A) (acc : list B * list C) :
  (∀ acc x, x ∈ xs → body acc x = Ret (acc.1 ++ f x, acc.2 ++ g x)) →
  range_list body acc xs = Ret (acc.1 ++ flat_map f xs, acc.2 ++ flat_map g xs).
Proof.
  revert acc. induction xs as [|x xs IH]; intros acc Hbody; simpl.
  - rewrite !app_nil_r. by destruct acc.
  - rewrite Hbody by by left. simpl. rewrite IH.
    + by rewrite !app_assoc.
    + intros acc' x' Hx'. apply Hbody. by right.
Qed.

Lemma range_list_ret_or_panic {A S} (body : S → A → outcome S) p (xs : list A) :
  (∀ acc x, x ∈ xs → (∃ acc', body acc x = Ret acc') ∨ body acc x = Panic p) →
  ∀ acc, (∃ acc', range_list body acc xs = Ret acc')
         ∨ range_list body acc xs = Panic p.
Proof.
  induction xs as [|x xs IH]; intros Hbody acc; simpl; [by eauto|].
  destruct (Hbody acc x) as [[acc' ->]| ->]; [by left| |by right].
  simpl. apply IH. intros acc'' x' Hx'. apply Hbody. by right.
Qed.

Lemma range_list_panics {A S} (body : S → A → outcome S) p (xs : list A) x :
  (∀ acc x, x ∈ xs → (∃ acc', body acc x = Ret acc') ∨ body acc x = Panic p) →
  x ∈ xs → (∀ acc, body acc x = Panic p) →
  ∀ acc, range_list body acc xs = Panic p.
Proof.
  induction xs as [|x' xs IH]; intros Hbody Hin Hx acc;
    [by apply elem_of_nil in Hin|].
  simpl. destruct (Hbody acc x') as [[acc' Hret]|Hpanic]; [by left| |].
  - apply elem_of_cons in Hin as [<-|Hin]; [by rewrite Hx in Hret|].
    rewrite Hret. simpl. apply IH; [|done..].
    intros acc'' x'' Hx''. apply Hbody. by right.
  - by rewrite Hpanic.
Qed.

Lemma updateEDS_address_labelled c hostname slice e acc a :
  pods_labelled c →
  updateEDS_address c hostname slice e acc a
  = Ret (acc.1 ++ address_records c slice e a,
         acc.2 ++ address_metrics c hostname e a).
Proof.
  intros Hc. unfold updateEDS_address, address_records, address_metrics.
  destruct (getPodByIP c a) as [pod|] eqn:Hpod.
  - rewrite newEndpointBuilder_labelled by by apply (Hc a).
    simpl. by rewrite updateEDS_ports_app, app_nil_r.
  - destruct (targetsPod e); simpl.
    + destruct (metrics_enabled c); by rewrite ?app_nil_r.
    + by rewrite updateEDS_ports_app, app_nil_r.
Qed.

Lemma updateEDS_address_ret_or_panic c hostname slice e acc a :
  (∃ acc', updateEDS_address c hostname slice e acc a = Ret acc')
  ∨ updateEDS_address c hostname slice e acc a
    = Panic assignment_to_entry_in_nil_map.
Proof.
  unfold updateEDS_address.
  assert (∀ pod, (∃ b, newEndpointBuilder pod e = Ret b)
                 ∨ newEndpointBuilder pod e = Panic assignment_to_entry_in_nil_map)
    as Hb.
  { intros pod. destruct (newEndpointBuilder pod e) as [b|p] eqn:Hnew; [by eauto|].
    apply newEndpointBuilder_Panic in Hnew as [-> _]. by right. }
  destruct (getPodByIP c a) as [pod|]; [|destruct (targetsPod e); [by eauto|]].
  - destruct (Hb (Some pod)) as [[b ->]| ->]; simpl; eauto.
  - destruct (Hb None) as [[b ->]| ->]; simpl; eauto.
Qed.

Lemma updateEDS_endpoint_ret_or_panic c hostname slice acc e :
  (∃ acc', updateEDS_endpoint c hostname slice acc e = Ret acc')
  ∨ updateEDS_endpoint c hostname slice acc e
    = Panic assignment_to_entry_in_nil_map.
Proof.
  unfold updateEDS_endpoint. destruct (notReady e); [by eauto|].
  apply range_list_ret_or_panic. intros acc' a _.
  apply updateEDS_address_ret_or_panic.
Qed.

(** X11: With every known pod labelled, an add or update event of a known
    service is handled without a panic: the slice contributes one record
    per port for every address of its ready endpoints, except the
    addresses without pod of endpoints that target a pod, which are
    reported as metrics; the merged view is pushed. *)
Theorem updateEDS_builds_slice_records c st slice event svc :
  pods_labelled c →
  servicesMap c !! hostname_of c slice = Some svc →
  event ≠ EventDelete →
  let cache :=
    Update (endpointCache st) (hostname_of c slice) (slice_Name slice)
           (slice_records c slice) in
  updateEDS c st slice event =
  Ret {| endpointCache := cache;
         metricsLog := metricsLog st ++ slice_metrics c (hostname_of c slice) slice;
         edsUpdates := edsUpdates st ++ [push_of c slice cache] |}.
Proof.
  intros Hc Hsvc Hev cache. unfold updateEDS. rewrite Hsvc.
  rewrite bool_decide_eq_true_2 by done.
  rewrite (range_list_app2 _
             (λ e, if notReady e then []
                   else flat_map (address_records c slice e) (Addresses e))
             (λ e, if notReady e then []
                   else flat_map (address_metrics c (hostname_of c slice) e)
                                 (Addresses e))).
  { done. }
  intros acc e _. unfold updateEDS_endpoint.
  destruct (notReady e); [by rewrite !app_nil_r; destruct acc|].
  apply range_list_app2. intros acc' a _.
  by apply updateEDS_address_labelled.
Qed.


(** X13: Endpoints marked not-ready are ignored: when every endpoint of the
    slice is, the event is handled like a delete, whatever the pods. *)
Theorem updateEDS_skips_unready c st slice event svc :
  servicesMap c !! hostname_of c slice = Some svc →
  (∀ e, e ∈ slice_Endpoints slice → Conditions_Ready e = Some false) →
  updateEDS c st slice event = updateEDS c st slice EventDelete.
Proof.
  intros Hsvc Hunready. unfold updateEDS. rewrite Hsvc.
  case_bool_decide as Hev; [|by rewrite bool_decide_eq_false_2 by naive_solver].
  rewrite (bool_decide_eq_false_2 (EventDelete ≠ EventDelete)) by naive_solver.
  generalize (@nil IstioEndpoint, metricsLog st). intros acc.
  assert (range_list (updateEDS_endpoint c (hostname_of c slice) slice) acc
                     (slice_Endpoints slice) = Ret acc) as ->; [|done].
  induction (slice_Endpoints slice) as [|e es IH]; [done|].
  cbn [range_list].
  assert (updateEDS_endpoint c (hostname_of c slice) slice acc e = Ret acc) as ->.
  { unfold updateEDS_endpoint, notReady. by rewrite (Hunready e) by by left. }
  apply IH. intros e' He'. apply Hunready. by right.
Qed.

(** X14: Whenever [updateEDS] returns for a known service, it has sent
    exactly one push after the earlier ones, and the push carries the
    merged view of the cache it leaves behind. *)
Theorem updateEDS_pushes_merged_view c st slice event svc st' :
  servicesMap c !! hostname_of c slice = Some svc →
  updateEDS c st slice event = Ret st' →
  edsUpdates st' = edsUpdates st ++ [push_of c slice (endpointCache st')].
Proof.
  intros Hsvc. unfold updateEDS. rewrite Hsvc.
  destruct (if bool_decide (event ≠ EventDelete) then _ else _) as [built|p];
    simpl; [|done].
  by intros [= <-].
Qed.

(** X15: Whenever [updateEDS] returns, the entries of all other slices and of
    all other hostnames are as they were. *)
Theorem updateEDS_frame c st slice event st' h s :
  updateEDS c st slice event = Ret st' →
  h ≠ hostname_of c slice ∨ s ≠ slice_Name slice →
  entry (endpointCache st') h s = entry (endpointCache st) h s.
Proof.
  unfold updateEDS. intros Hrun Hne.
  destruct (servicesMap c !! hostname_of c slice) as [svc|]; [|by inversion Hrun].
  destruct (if bool_decide (event ≠ EventDelete) then _ else _) as [built|p];
    simpl in Hrun; [|done].
  inversion Hrun; subst; simpl. rewrite entry_Update.
  rewrite bool_decide_eq_false_2; [done|].
  intros [Hh Hs]. destruct Hne; congruence.
Qed.

(** X16: One pod without labels stops the handler: an add or update event
    with a ready endpoint that has the address of such a pod panics, and
    neither the cache is written nor a push sent. *)
Theorem updateEDS_unlabelled_pod_panics c st slice event svc e a pod :
  servicesMap c !! hostname_of c slice = Some svc →
  event ≠ EventDelete →
  e ∈ slice_Endpoints slice → notReady e = false →
  a ∈ Addresses e →
  getPodByIP c a = Some pod → pod_Labels pod = None →
  updateEDS c st slice event = Panic assignment_to_entry_in_nil_map.
Proof.
  intros Hsvc Hev He Hready Ha Hpod Hl. unfold updateEDS. rewrite Hsvc.
  rewrite bool_decide_eq_true_2 by done.
  rewrite (range_list_panics _ assignment_to_entry_in_nil_map _ e); [done| |done|].
  - intros acc e' _. apply updateEDS_endpoint_ret_or_panic.
  - intros acc. unfold updateEDS_endpoint. rewrite Hready.
    apply (range_list_panics _ _ _ a); [|done|].
    + intros acc' a' _. apply updateEDS_address_ret_or_panic.
    + intros acc'. unfold updateEDS_address. rewrite Hpod.
      assert (newEndpointBuilder (Some pod) e
              = Panic assignment_to_entry_in_nil_map) as ->; [|done].
      apply newEndpointBuilder_Panic. eauto.
Qed.

End handler_laws.

(** ** Further properties of the service instance queries *)

Section query_laws.
Context `{Externals}.
Implicit Types (c : Controller) (svc : Service) (proxy : Proxy).

Lemma range_list_inv {A S} (P : S → Prop) (body : S → A → outcome S)
    (xs : list A) :
  (∀ acc x acc', x ∈ xs → P acc → body acc x = Ret acc' → P acc') →
  ∀ acc acc', P acc → range_list body acc xs = Ret acc' → P acc'.
Proof.
  induction xs as [|x xs IH]; intros Hbody acc acc' Hacc; simpl.
  - by intros [= <-].
  - destruct (body acc x) as [acc1|p] eqn:Hx; simpl; [|done].
    apply IH.
    + intros acc2 x' acc3 Hx'. apply Hbody. by right.
    + eapply Hbody; [by left|done..].
Qed.

Lemma range_list_unchanged {A S} (body : S → A → outcome S) (xs : list A) acc :
  (∀ x, x ∈ xs → body acc x = Ret acc) →
  range_list body acc xs = Ret acc.
Proof.
  induction xs as [|x xs IH]; intros Hbody; simpl; [done|].
  rewrite Hbody by by left. simpl. apply IH.
  intros x' Hx'. apply Hbody. by right.
Qed.

Lemma foldl_fst_app {A B C} (f : list B * C → A → list B * C) (g : A → list B)
    (xs : list A) (acc : list B * C) :
  (∀ acc x, x ∈ xs → (f acc x).1 = acc.1 ++ g x) →
  (foldl f acc xs).1 = acc.1 ++ flat_map g xs.
Proof.
  revert acc. induction xs as [|x xs IH]; intros acc Hf; simpl.
  - by rewrite app_nil_r.
  - rewrite IH.
    + rewrite Hf by by left. by rewrite app_assoc.
    + intros acc' x' Hx'. apply Hf. by right.
Qed.

(** The instances [proxyServiceInstances] collects for one port of the
    slice. *)
Lemma proxy_port_fst c ep proxy svc builder acc port :
  (proxy_port c ep proxy svc builder acc port).1 =
  acc.1 ++
  match port_Name port, port_Port port with
  | Some name, Some portNum =>
    match PortList_Get (svc_Ports svc) name with
    | Some svcPort =>
      flat_map (λ ip,
        flat_map (λ e,
          flat_map (λ a,
            if bool_decide (a = ip)
            then [{| si_Endpoint :=
                       buildIstioEndpoint builder ip portNum (svcport_Name svcPort);
                     si_ServicePort := svcPort;
                     si_Service := svc |}]
            else [])
          (Addresses e))
        (slice_Endpoints ep))
      (IPAddresses proxy)
    | None => []
    end
  | _, _ => []
  end.
Proof.
  unfold proxy_port.
  destruct (port_Name port) as [name|], (port_Port port) as [portNum|];
    rewrite ?app_nil_r; try done.
  destruct (PortList_Get (svc_Ports svc) name) as [svcPort|];
    rewrite ?app_nil_r; [|done].
  apply foldl_fst_app. intros acc1 ip _.
  apply foldl_fst_app. intros acc2 e _.
  apply foldl_fst_app. intros acc3 a _.
  unfold proxy_match. case_bool_decide; simpl; [done|by rewrite app_nil_r].
Qed.

Lemma elem_of_proxy_ports c ep proxy svc builder inst :
  inst ∈ (foldl (proxy_port c ep proxy svc builder) ([], []) (slice_Ports ep)).1 ↔
  ∃ port name portNum svcPort ip e,
    port ∈ slice_Ports ep
    ∧ port_Name port = Some name ∧ port_Port port = Some portNum
    ∧ PortList_Get (svc_Ports svc) name = Some svcPort
    ∧ ip ∈ IPAddresses proxy
    ∧ e ∈ slice_Endpoints ep ∧ ip ∈ Addresses e
    ∧ inst = {| si_Endpoint :=
                  buildIstioEndpoint builder ip portNum (svcport_Name svcPort);
                si_ServicePort := svcPort;
                si_Service := svc |}.
Proof.
  rewrite (foldl_fst_app _ _ _ _ (λ acc port _, proxy_port_fst _ _ _ _ _ acc port)).
  simpl. rewrite list_elem_of_In, in_flat_map. split.
  - intros (port & Hport & Hin).
    destruct (port_Name port) as [name|] eqn:Hname; [|done].
    destruct (port_Port port) as [portNum|] eqn:Hnum; [|done].
    destruct (PortList_Get (svc_Ports svc) name) as [svcPort|] eqn:Hget; [|done].
    apply in_flat_map in Hin as (ip & Hipin & Hin).
    apply in_flat_map in Hin as (e & He & Hin).
    apply in_flat_map in Hin as (a & Ha & Hin).
    case_bool_decide as Heq; [|done]. subst a.
    destruct Hin as [<-|[]].
    exists port, name, portNum, svcPort, ip, e.
    by rewrite !list_elem_of_In.
  - intros (port & name & portNum & svcPort & ip & e
            & Hport & Hname & Hnum & Hget & Hipin & He & Ha & ->).
    apply list_elem_of_In in Hport, Hipin, He, Ha.
    exists port. split; [done|]. rewrite Hname, Hnum, Hget.
    apply in_flat_map. exists ip. split; [done|].
    apply in_flat_map. exists e. split; [done|].
    apply in_flat_map. exists ip. split; [done|].
    rewrite bool_decide_eq_true_2 by done. by left.
Qed.


(** X18: Slice ports without a name or without a number give no instance,
    whatever the ports of the service. *)
Theorem proxyServiceInstances_unnamed_ports c ep proxy :
  IPAddresses proxy ≠ [] →
  (∀ port, port ∈ slice_Ports ep →
           port_Name port = None ∨ port_Port port = None) →
  proxyServiceInstances c ep proxy = Ret ([], []).
Proof.
  intros Hip Hports. unfold proxyServiceInstances.
  destruct (servicesMap c !! hostname_of c ep) as [svc|]; [|done].
  destruct (IPAddresses proxy) as [|podIP ips]; [done|].
  f_equal. generalize (@nil ServiceInstance, @nil Metric). intros acc.
  induction (slice_Ports ep) as [|port ports IH]; [done|].
  simpl. assert (proxy_port c ep proxy svc
                   (NewEndpointBuilder (getPodByIP c podIP)) acc port = acc) as ->.
  { unfold proxy_port. destruct (Hports port) as [-> | ->]; [by left|done|].
    by destruct (port_Name port). }
  apply IH. intros port' Hport'. apply Hports. by right.
Qed.

Lemma proxyServiceInstances_addresses c ep proxy :
  IPAddresses proxy ≠ [] →
  ∃ out, proxyServiceInstances c ep proxy = Ret out
         ∧ Forall (built_for_proxy proxy) out.1.
Proof.
  intros Hip. unfold proxyServiceInstances.
  destruct (servicesMap c !! hostname_of c ep) as [svc|].
  - destruct (IPAddresses proxy) as [|podIP ips] eqn:Hips; [done|].
    eexists. split; [reflexivity|].
    apply Forall_forall. intros inst Hin.
    apply elem_of_proxy_ports in Hin
      as (port & name & portNum & svcPort & ip & e
          & _ & _ & _ & _ & Hipin & _ & _ & ->).
    eexists _, ip, _, _. split; [exact Hipin|reflexivity].
  - exists ([], []). split; [done|]. constructor.
Qed.

(** X19: A proxy that has an address never makes the by-proxy query panic,
    and every instance returned is built for one of the addresses of the
    proxy. *)
Theorem GetProxyServiceInstances_with_address c proxy :
  IPAddresses proxy ≠ [] →
  ∃ out,
    GetProxyServiceInstances c proxy = Ret out
    ∧ ∀ inst, inst ∈ out.1 → built_for_proxy proxy inst.
Proof.
  intros Hip. unfold GetProxyServiceInstances.
  destruct (EndpointSlices c (Metadata_Namespace proxy) Everything) as [eps|].
  - assert (∀ acc : list ServiceInstance * list Metric,
      Forall (built_for_proxy proxy) acc.1 →
      ∃ out,
        range_list (λ out ep,
                      instances ← proxyServiceInstances c ep proxy;
                      Ret (out.1 ++ instances.1, out.2 ++ instances.2))
                   acc eps = Ret out
        ∧ Forall (built_for_proxy proxy) out.1)
      as Hloop.
    { induction eps as [|ep eps IH]; intros acc Hacc; [by exists acc|].
      simpl.
      destruct (proxyServiceInstances_addresses c ep proxy Hip)
        as (instances & -> & Hinst).
      simpl. apply IH. simpl. by apply Forall_app. }
    destruct (Hloop ([], [])) as (out & Hrun & Hout); [constructor|].
    exists out. split; [done|]. by apply Forall_forall.
  - exists ([], []). split; [done|]. by intros inst ?%elem_of_nil.
Qed.

(** X20: Without a listed slice of a known service the by-proxy query
    returns nothing and reads no proxy address: a listing error and
    slices of unknown services give the empty result. *)
Theorem GetProxyServiceInstances_no_known_service c proxy :
  (∀ eps ep, EndpointSlices c (Metadata_Namespace proxy) Everything = Some eps →
             ep ∈ eps → servicesMap c !! hostname_of c ep = None) →
  GetProxyServiceInstances c proxy = Ret ([], []).
Proof.
  intros Hunknown. unfold GetProxyServiceInstances.
  destruct (EndpointSlices c (Metadata_Namespace proxy) Everything) as [eps|];
    [|done].
  apply range_list_unchanged. intros ep Hep.
  unfold proxyServiceInstances. by rewrite (Hunknown eps ep).
Qed.

Lemma byPort_ports_Forall (P : ServiceInstance → Prop) svc svcPort builder a ports out :
  (∀ portNum,
     P {| si_Endpoint := buildIstioEndpoint builder a portNum (svcport_Name svcPort);
          si_ServicePort := svcPort;
          si_Service := svc |}) →
  Forall P out →
  Forall P (byPort_ports svc svcPort builder a ports out).
Proof.
  intros HP Hout. rewrite byPort_ports_app. apply Forall_app. split; [done|].
  unfold instances_for. apply Forall_map, Forall_true. intros port. apply HP.
Qed.

(** X21: Every instance [InstancesByPort] returns is on the service port
    that has the requested number: it carries that port and the service,
    and its endpoint is built with the name of that port, whatever the
    name of the slice port. *)
Theorem InstancesByPort_service_port c svc reqSvcPort labelsList out err inst :
  InstancesByPort c svc reqSvcPort labelsList = Ret (out, err) →
  inst ∈ out →
  ∃ svcPort,
    PortList_GetByPort (svc_Ports svc) reqSvcPort = Some svcPort
    ∧ si_ServicePort inst = svcPort
    ∧ si_Service inst = svc
    ∧ ∃ builder a portNum,
        si_Endpoint inst
        = buildIstioEndpoint builder a portNum (svcport_Name svcPort).
Proof.
  unfold InstancesByPort.
  destruct (EndpointSlices c _ _) as [slices|];
    [|by intros [= <- _] ?%elem_of_nil].
  case_bool_decide; [by intros [= <- _] ?%elem_of_nil|].
  destruct (PortList_GetByPort (svc_Ports svc) reqSvcPort) as [svcPort|];
    [|by intros [= <- _] ?%elem_of_nil].
  destruct (range_list _ _ _) as [out'|p] eqn:Hloop; simpl; [|done].
  intros [= <- _] Hin. exists svcPort. split; [done|].
  set (P := λ inst : ServiceInstance,
         si_ServicePort inst = svcPort ∧ si_Service inst = svc
         ∧ ∃ builder a portNum,
             si_Endpoint inst
             = buildIstioEndpoint builder a portNum (svcport_Name svcPort)).
  assert (Forall P out') as Hall; [|by apply (proj1 (Forall_forall _ _) Hall)].
  revert Hloop. apply (range_list_inv (Forall P)); [|constructor].
  intros acc slice acc' _ Hacc. unfold byPort_slice.
  apply (range_list_inv (Forall P)); [|done].
  intros acc1 e acc1' _ Hacc1.
  apply (range_list_inv (Forall P)); [|done].
  intros acc2 a acc2' _ Hacc2. unfold byPort_address.
  destruct (negb _); [by intros [= <-]|].
  destruct (newEndpointBuilder _ _) as [builder|]; simpl; [|done].
  intros [= <-]. apply byPort_ports_Forall; [|done].
  intros portNum. unfold P. simpl.
  split; [done|]. split; [done|]. by eexists _, _, _.
Qed.

Lemma byPort_address_ret_or_panic c svc svcPort labelsList slice e out a :
  (∃ out', byPort_address c svc svcPort labelsList slice e out a = Ret out')
  ∨ byPort_address c svc svcPort labelsList slice e out a
    = Panic assignment_to_entry_in_nil_map.
Proof.
  unfold byPort_address. destruct (negb _); [by eauto|].
  destruct (newEndpointBuilder (getPodByIP c a) e) as [builder|p] eqn:Hnew;
    simpl; [by eauto|].
  apply newEndpointBuilder_Panic in Hnew as [-> _]. by right.
Qed.

(** X22: A pod without labels that passes the label test makes
    [InstancesByPort] panic once the port is resolved; nothing is
    returned. *)
Theorem InstancesByPort_unlabelled_pod_panics c svc reqSvcPort labelsList
    slices svcPort slice e a pod :
  EndpointSlices c (attr_Namespace svc)
                 (LabelIs LabelServiceName (attr_Name svc)) = Some slices →
  PortList_GetByPort (svc_Ports svc) reqSvcPort = Some svcPort →
  slice ∈ slices → e ∈ slice_Endpoints slice → a ∈ Addresses e →
  getPodByIP c a = Some pod → pod_Labels pod = None →
  HasSubsetOf labelsList (podLabels_of (Some pod)) = true →
  InstancesByPort c svc reqSvcPort labelsList
  = Panic assignment_to_entry_in_nil_map.
Proof.
  intros Hlist Hport Hslice He Ha Hpod Hl Htest. unfold InstancesByPort.
  rewrite Hlist, Hport.
  rewrite bool_decide_eq_false_2 by (by destruct slices; [apply elem_of_nil in Hslice|]).
  rewrite (range_list_panics _ assignment_to_entry_in_nil_map _ slice);
    [done| |done|].
  - intros out slice' _. unfold byPort_slice.
    apply range_list_ret_or_panic. intros out' e' _.
    apply range_list_ret_or_panic. intros out'' a' _.
    apply byPort_address_ret_or_panic.
  - intros out. unfold byPort_slice.
    apply (range_list_panics _ _ _ e); [|done|].
    + intros out' e' _. apply range_list_ret_or_panic. intros out'' a' _.
      apply byPort_address_ret_or_panic.
    + intros out'. apply (range_list_panics _ _ _ a); [|done|].
      * intros out'' a' _. apply byPort_address_ret_or_panic.
      * intros out''. unfold byPort_address. rewrite Hpod, Htest.
        assert (newEndpointBuilder (Some pod) e
                = Panic assignment_to_entry_in_nil_map) as ->; [|done].
        apply newEndpointBuilder_Panic. eauto.
Qed.

End query_laws.

(** ** The further properties on the concrete inputs *)

Section more_samples.
#[local] Existing Instance sample_names.
#[local] Existing Instance range_sorted.

Lemma Update_commute_witness :
  Update (Update newEndpointSliceCache "svc.ns" "a" [sample_record "10.0.0.1"])
         "svc.ns" "b" [sample_record "10.0.0.2"]
  = Update (Update newEndpointSliceCache "svc.ns" "b" [sample_record "10.0.0.2"])
           "svc.ns" "a" [sample_record "10.0.0.1"].
Proof. apply Update_commute. right. intros [=]. Defined.

Lemma Update_never_removes_keys_witness :
  is_Some (entry (foldl apply_update (run_updates two_slices) insert_then_delete)
                 "svc.ns" "a").
Proof.
  apply Update_never_removes_keys.
  exists [sample_record "10.0.0.1"]. reflexivity.
Defined.


Lemma newEndpointBuilder_locality_label_witness :
  ∃ labels',
    newEndpointBuilder (Some pod_foo) (endpoint_of "10.0.0.1")
    = Ret (NewEndpointBuilder
             (Some {| pod_Name := "foo-1"; pod_Labels := Some labels' |}))
    ∧ index labels' "istio-locality" = "us-east-1/us-east-1a".
Proof.
  destruct (newEndpointBuilder_locality_label pod_foo
              {[ "app" := "foo"; "version" := "v1" ]}
              (endpoint_of "10.0.0.1") eq_refl)
    as (labels' & Hrun & _ & Hlocality).
  exists labels'. split; [exact Hrun|].
  etrans; [exact Hlocality|reflexivity].
Defined.

Lemma updateEDS_builds_slice_records_witness :
  ∃ st',
    updateEDS (sample_controller []) fresh_state
              (sample_slice ["10.0.0.9"; "10.0.0.1"; "10.0.0.2"]) EventUpdate
    = Ret st'
    ∧ ep_Address <$> Get (endpointCache st') sample_host
      = ["10.0.0.1"; "10.0.0.2"].
Proof.
  eexists. split.
  - apply (updateEDS_builds_slice_records (sample_controller []) fresh_state
             (sample_slice ["10.0.0.9"; "10.0.0.1"; "10.0.0.2"]) EventUpdate
             sample_service).
    + intros a pod. simpl. repeat case_bool_decide; intros [= <-]; by eexists.
    + reflexivity.
    + intros [=].
  - vm_compute. reflexivity.
Defined.


Lemma updateEDS_skips_unready_witness :
  updateEDS (controller_with_unlabelled_pod []) state_after_add
            unready_slice EventAdd
  = updateEDS (controller_with_unlabelled_pod []) state_after_add
              unready_slice EventDelete.
Proof.
  apply (updateEDS_skips_unready _ _ _ _ sample_service); [reflexivity|].
  intros e He. simpl in He. apply list_elem_of_singleton in He as ->.
  reflexivity.
Defined.

Lemma updateEDS_pushes_merged_view_witness :
  ∃ st',
    updateEDS (sample_controller []) fresh_state
              (sample_slice ["10.0.0.1"]) EventAdd = Ret st'
    ∧ edsUpdates st'
      = [push_of (sample_controller []) (sample_slice ["10.0.0.1"])
                 (endpointCache st')].
Proof.
  eexists. split; [vm_compute; reflexivity|].
  apply (updateEDS_pushes_merged_view (sample_controller []) fresh_state
           (sample_slice ["10.0.0.1"]) EventAdd sample_service);
    [reflexivity|vm_compute; reflexivity].
Defined.

Lemma updateEDS_frame_witness :
  ∃ st',
    updateEDS (sample_controller []) state_after_add
              (sample_slice ["10.0.0.2"]) EventDelete = Ret st'
    ∧ entry (endpointCache st') sample_host "svc-ep-9"
      = entry (endpointCache state_after_add) sample_host "svc-ep-9".
Proof.
  eexists. split; [vm_compute; reflexivity|].
  apply (updateEDS_frame (sample_controller []) state_after_add
           (sample_slice ["10.0.0.2"]) EventDelete);
    [vm_compute; reflexivity|right; intros [=]].
Defined.

Lemma updateEDS_unlabelled_pod_panics_witness :
  updateEDS (controller_with_unlabelled_pod []) fresh_state
            (sample_slice ["10.0.0.1"; "10.0.0.3"]) EventAdd
  = Panic assignment_to_entry_in_nil_map.
Proof.
  apply (updateEDS_unlabelled_pod_panics _ _ _ _ sample_service
           (endpoint_of "10.0.0.3") "10.0.0.3" pod_unlabelled);
    [reflexivity | intros [=] | by right; left | reflexivity | by left
    | reflexivity | reflexivity].
Defined.


Lemma proxyServiceInstances_unnamed_ports_witness :
  proxyServiceInstances (sample_controller []) unnamed_port_slice sample_proxy
  = Ret ([], []).
Proof.
  apply proxyServiceInstances_unnamed_ports; [intros [=]|].
  intros port Hport. simpl in Hport.
  apply list_elem_of_singleton in Hport as ->. by left.
Defined.

Lemma GetProxyServiceInstances_with_address_witness :
  ∃ out,
    GetProxyServiceInstances (sample_controller ["10.0.0.1"]) sample_proxy = Ret out
    ∧ ∀ inst, inst ∈ out.1 → built_for_proxy sample_proxy inst.
Proof. apply GetProxyServiceInstances_with_address. intros [=]. Defined.

Lemma GetProxyServiceInstances_no_known_service_witness :
  GetProxyServiceInstances controller_without_service proxy_without_address
  = Ret ([], []).
Proof.
  apply GetProxyServiceInstances_no_known_service.
  intros eps ep _ _. apply lookup_empty.
Defined.

Lemma InstancesByPort_service_port_witness :
  ∃ svcPort,
    PortList_GetByPort (svc_Ports sample_service) 80 = Some svcPort
    ∧ si_ServicePort instance_foo = svcPort
    ∧ si_Service instance_foo = sample_service
    ∧ ∃ builder a portNum,
        si_Endpoint instance_foo
        = buildIstioEndpoint builder a portNum (svcport_Name svcPort).
Proof.
  apply (InstancesByPort_service_port (sample_controller ["10.0.0.1"])
           sample_service 80 {[ "app" := "foo" ]} [instance_foo] None);
    [vm_compute; reflexivity|by left].
Defined.

Lemma InstancesByPort_unlabelled_pod_panics_witness :
  InstancesByPort (controller_with_unlabelled_pod ["10.0.0.1"; "10.0.0.3"])
                  sample_service 80 ∅
  = Panic assignment_to_entry_in_nil_map.
Proof.
  apply (InstancesByPort_unlabelled_pod_panics _ _ _ _
           [sample_slice ["10.0.0.1"; "10.0.0.3"]]
           {| svcport_Name := "http"; svcport_Port := 80 |}
           (sample_slice ["10.0.0.1"; "10.0.0.3"])
           (endpoint_of "10.0.0.3") "10.0.0.3" pod_unlabelled);
    [reflexivity | reflexivity | by left | by right; left | by left
    | reflexivity | reflexivity | reflexivity].
Defined.

(** The panic and the empty result, on the code itself. *)
Example unlabelled_pod_samples :
  updateEDS (controller_with_unlabelled_pod []) fresh_state
            (sample_slice ["10.0.0.3"]) EventAdd
    = Panic assignment_to_entry_in_nil_map
  ∧ InstancesByPort (controller_with_unlabelled_pod ["10.0.0.3"])
                    sample_service 80 {[ "app" := "foo" ]}
    = Ret ([], None)
  ∧ GetProxyServiceInstances (sample_controller ["10.0.0.1"; "10.0.0.2"])
                             sample_proxy
    = Ret ([{| si_Endpoint :=
                 buildIstioEndpoint (NewEndpointBuilder (Some pod_foo))
                                    "10.0.0.1" 80 "http";
               si_ServicePort := {| svcport_Name := "http"; svcport_Port := 80 |};
               si_Service := sample_service |}], []).
Proof. vm_compute. done. Qed.

End more_samples.
